(** * TouchScreen: momentum scrolling for pointer and touch drags

    A shallow embedding of [src/models/touch-screen.ts] (class [TouchScreen])
    and of [src/types/touch-screen.ts] (enum [TouchTypes]).

    Conventions of the embedding.
    - A JavaScript [number] that the class reads from an event or from its
      configuration is a rational ([Q]): arithmetic is exact, rounding and
      overflow of IEEE doubles are not modelled.  Properties about amounts
      are therefore stated over the values the handlers hold ([totalDelta],
      the accumulator, the deltas of a closure) or over the expression a
      handler evaluates, not over closed forms that hold only without
      rounding.  The only operation of the
      class that can leave the finite numbers is the division in [onEnd];
      its results, and the arithmetic of the fling closure that consumes
      them, live in [number], which adds the two infinities and NaN.
    - The record [World] holds the mutable fields of the class and the
      state of the host it talks to: the listeners registered on [window]
      for the move event, the timer table, and the DOM writes issued so far.
    - DOM writes are recorded in a log ([Effect]); what the browser does
      with a written scroll offset (clamping, rounding) is outside the class.
    - An event handler is a function [World -> World]; the host picks the
      next event, so a run is a list of [Event]s.  Timers fire when the host
      says so: every interleaving is a run.
    - Function objects have an identity: [bind] returns a new one at every
      call, and [removeEventListener] removes the function it is given. *)

From Stdlib Require Import ZArith QArith Qabs Lia Lqa List Bool Ascii String.
From stdpp Require Import gmap.
Import ListNotations.

Local Open Scope string_scope.
Local Open Scope list_scope.

#[local] Set Warnings "-register-all".


(** ** Comparisons of rationals as the class writes them *)

Definition Qltb (a b : Q) : bool := negb (Qle_bool b a).
Definition Qgtb (a b : Q) : bool := Qltb b a.
Definition Qgeb (a b : Q) : bool := Qle_bool b a.

(** ** JavaScript numbers with the non-finite values *)

Module JSNumber.

Inductive number : Type :=
| Finite (q : Q)
| PosInfinity
| NegInfinity
| NaN.

(** Equality of values: rationals are compared by [Qeq]. *)
Definition eq (a b : number) : Prop :=
  match a, b with
  | Finite x, Finite y => (x == y)%Q
  | PosInfinity, PosInfinity => True
  | NegInfinity, NegInfinity => True
  | NaN, NaN => True
  | _, _ => False
  end.

(** [a / b].  A zero divisor counts as [+0] (the class only divides by
    [(lastEnd - lastStart) * TIME_MULTIPLIER] and by a step budget). *)
Definition div (a b : number) : number :=
  match a, b with
  | NaN, _ => NaN
  | _, NaN => NaN
  | Finite x, Finite y =>
      if Qeq_bool y 0 then
        if Qeq_bool x 0 then NaN
        else if Qle_bool 0 x then PosInfinity else NegInfinity
      else Finite (x / y)
  | Finite _, _ => Finite 0
  | PosInfinity, Finite y => if Qle_bool 0 y then PosInfinity else NegInfinity
  | NegInfinity, Finite y => if Qle_bool 0 y then NegInfinity else PosInfinity
  | _, _ => NaN
  end.

(** [a - b]. *)
Definition sub (a b : number) : number :=
  match a, b with
  | NaN, _ => NaN
  | _, NaN => NaN
  | Finite x, Finite y => Finite (x - y)
  | Finite _, PosInfinity => NegInfinity
  | Finite _, NegInfinity => PosInfinity
  | PosInfinity, PosInfinity => NaN
  | PosInfinity, _ => PosInfinity
  | NegInfinity, NegInfinity => NaN
  | NegInfinity, _ => NegInfinity
  end.

(** [Math.abs(a)]. *)
Definition abs (a : number) : number :=
  match a with
  | Finite x => Finite (Qabs x)
  | PosInfinity => PosInfinity
  | NegInfinity => PosInfinity
  | NaN => NaN
  end.

(** [a > b]: false as soon as one side is NaN. *)
Definition gtb (a b : number) : bool :=
  match a, b with
  | NaN, _ => false
  | _, NaN => false
  | Finite x, Finite y => Qgtb x y
  | Finite _, PosInfinity => false
  | Finite _, NegInfinity => true
  | PosInfinity, PosInfinity => false
  | PosInfinity, _ => true
  | NegInfinity, _ => false
  end.

(** [a >= b]. *)
Definition geb (a b : number) : bool :=
  match a, b with
  | NaN, _ => false
  | _, NaN => false
  | Finite x, Finite y => Qgeb x y
  | Finite _, PosInfinity => false
  | Finite _, NegInfinity => true
  | PosInfinity, _ => true
  | NegInfinity, NegInfinity => true
  | NegInfinity, _ => false
  end.

End JSNumber.

Import JSNumber.

(** ** The enum [TouchTypes] *)

Inductive TouchTypes : Type :=
| HORIZONTAL
| VERTICAL
| BOTH.

Definition TouchTypes_eqb (a b : TouchTypes) : bool :=
  match a, b with
  | HORIZONTAL, HORIZONTAL => true
  | VERTICAL, VERTICAL => true
  | BOTH, BOTH => true
  | _, _ => false
  end.

(** ** DOM elements

    An element carries what the class reads from it: its identity, whether
    it is an [HTMLElement], its attributes, class list and id, its computed
    overflow styles, its extents, and its parent. *)

Inductive Element : Type :=
  mkElement {
    uid : nat;
    instanceofHTMLElement : bool;
    attributes : list string;
    classList : list string;
    id : string;
    overflowX : string;
    overflowY : string;
    scrollWidth : Z;
    clientWidth : Z;
    scrollHeight : Z;
    clientHeight : Z;
    parentElement : option Element
  }.

(** The chain [e, e.parentElement, e.parentElement.parentElement, ...]. *)
Fixpoint ancestors (e : Element) : list Element :=
  e :: match parentElement e with
       | Some p => ancestors p
       | None => []
       end.

(** Reads of the DOM made by [getScrollability]. *)
Inductive DomRead : Type :=
| ReadComputedStyle (e : nat)
| ReadScrollWidth (e : nat)
| ReadClientWidth (e : nat)
| ReadScrollHeight (e : nat)
| ReadClientHeight (e : nat).

(** Writes and calls the handlers issue. *)
Inductive Effect : Type :=
| PreventDefault
| ScrollLeftAdd (e : Element) (v : number)
| ScrollTopAdd (e : Element) (v : number).

Definition writesScrollTop (f : Effect) : bool :=
  match f with
  | ScrollTopAdd _ _ => true
  | _ => false
  end.

Definition writesScrollLeft (f : Effect) : bool :=
  match f with
  | ScrollLeftAdd _ _ => true
  | _ => false
  end.

(** ** Configuration fixed by the constructor *)

(** The body that [this.isScrollable] holds after construction. *)
Inductive ScrollableTest : Type :=
| HasAttribute        (* the method of the class: element.hasAttribute *)
| ClassListContains   (* attribute started with "." *)
| IdEquals            (* attribute started with "#" *)
| ByScrollability.    (* attribute was null *)

Record Config : Type :=
  mkConfig {
    attribute : string;
    isScrollableBody : ScrollableTest;
    continuous : bool;
    iterationLimit : Q;
    minimum : Q;
    sensibility : Q;
    type : TouchTypes
  }.

(** An optional constructor argument: [None] is [undefined]. *)
Inductive AttributeArg : Type :=
| AttrNull
| AttrName (s : string).

Definition constructor (attribute' : option AttributeArg) (type' : option TouchTypes)
    (continuous' : option bool) (minimum' sensibility' iterationLimit' : option Q)
    : Config :=
  let sel :=
    match attribute' with
    | None => ("tss", HasAttribute)
    | Some AttrNull => ("", ByScrollability)
    | Some (AttrName s) =>
        match s with
        | String "."%char rest => (rest, ClassListContains)
        | String "#"%char rest => (rest, IdEquals)
        | _ => (s, HasAttribute)
        end
    end in
  {| attribute := fst sel;
     isScrollableBody := snd sel;
     continuous := default true continuous';
     iterationLimit := default 50%Q iterationLimit';
     minimum := default 25%Q minimum';
     sensibility := default 1%Q sensibility';
     type := default BOTH type' |}.

Definition MOVEMENT_STEPS : Q := 20.
Definition STOP_DELAY : Q := 1.
Definition TIME_MULTIPLIER : Q := 8 # 1000.
Definition ZERO_THRESHOLD : Q := 200.

(** ** Scrollable-surface detection *)

Record Scrollability : Type := mkScrollability { sx : bool; sy : bool }.

Definition overflowAllows (v : string) : bool :=
  String.eqb v "auto" || String.eqb v "scroll" || String.eqb v "overlay".

(** [getScrollability]: the result together with the DOM reads performed.
    The extents of an axis are read only when its overflow allows scrolling
    ([&&] short-circuits). *)
Definition getScrollability (element : Element) : Scrollability * list DomRead :=
  if negb (instanceofHTMLElement element) then
    ({| sx := false; sy := false |}, [])
  else
    let overflowXAllows := overflowAllows (overflowX element) in
    let overflowYAllows := overflowAllows (overflowY element) in
    let x := overflowXAllows && (clientWidth element + 1 <? scrollWidth element)%Z in
    let y := overflowYAllows && (clientHeight element + 1 <? scrollHeight element)%Z in
    ({| sx := x; sy := y |},
     [ReadComputedStyle (uid element)]
       ++ (if overflowXAllows
           then [ReadScrollWidth (uid element); ReadClientWidth (uid element)]
           else [])
       ++ (if overflowYAllows
           then [ReadScrollHeight (uid element); ReadClientHeight (uid element)]
           else [])).

(** [element.hasAttribute(name)] in an HTML document: on an element of the
    HTML namespace (an [HTMLElement]) the name is put in ASCII lower case
    before it is compared with the names of the attributes; on any other
    element it is compared as it is. *)
Definition asciiLowerCase (c : ascii) : ascii :=
  let n := nat_of_ascii c in
  if ((65 <=? n) && (n <=? 90))%nat then ascii_of_nat (n + 32) else c.

Fixpoint toAsciiLowerCase (s : string) : string :=
  match s with
  | EmptyString => EmptyString
  | String c rest => String (asciiLowerCase c) (toAsciiLowerCase rest)
  end.

Definition hasAttribute (element : Element) (qualifiedName : string) : bool :=
  let name := if instanceofHTMLElement element then toAsciiLowerCase qualifiedName
              else qualifiedName in
  existsb (String.eqb name) (attributes element).

Section Detection.

Variable cfg : Config.

Definition isScrollable (element : Element) : bool :=
  match isScrollableBody cfg with
  | HasAttribute => hasAttribute element (attribute cfg)
  | ClassListContains => existsb (String.eqb (attribute cfg)) (classList element)
  | IdEquals => String.eqb (id element) (attribute cfg)
  | ByScrollability =>
      let scrollability := fst (getScrollability element) in
      match type cfg with
      | BOTH => sx scrollability || sy scrollability
      | HORIZONTAL => sx scrollability
      | VERTICAL => sy scrollability
      end
  end.

(** [findScrollable] on a non-null start element: the recursion follows
    [parentElement]. *)
Fixpoint findScrollableFrom (startElement : Element) (iteration : Q)
    : option Element :=
  if isScrollable startElement then Some startElement
  else if Qgtb iteration (iterationLimit cfg) then None
  else match parentElement startElement with
       | Some p => findScrollableFrom p (iteration + 1)
       | None => None
       end.

Definition findScrollable (startElement : option Element) (iteration : Q)
    : option Element :=
  match startElement with
  | None => None
  | Some e => findScrollableFrom e iteration
  end.

End Detection.

(** ** State

    The mutable fields of the class, followed by the state of the host it
    talks to.  A timer handle is a [nat]; [setTimeout] and [setInterval]
    draw their handles from one counter, as in a browser. *)

(** The variables captured by the arrow function that [smoothScrollBy]
    hands to [setInterval]: [element], [delta.x], [delta.y], [time] and
    [count]. *)
Record FlingClosure : Type :=
  mkFlingClosure {
    fl_element : option Element;
    fl_delta_x : number;
    fl_delta_y : number;
    fl_time : number;
    fl_count : Z
  }.

Inductive Timer : Type :=
| StopTimeout                           (* the callback scheduled by onEnd *)
| ScrollInterval (c : FlingClosure).    (* the callback of smoothScrollBy *)

Record World : Type :=
  mkWorld {
    (* fields of the class *)
    element : option Element;
    lastDeltaX : Q;
    lastDeltaY : Q;
    lastEnd : Q;
    lastStart : Q;
    lastX : Q;
    lastY : Q;
    scrolling : bool;
    scrollInterval : option nat;
    stopTimeout : option nat;
    totalDelta : Q;
    (* the host *)
    timers : gmap nat Timer;        (* live timers *)
    nextTimer : nat;                (* next handle to hand out *)
    moveListeners : list nat;       (* functions registered for the move event *)
    nextFunction : nat;             (* identity of the next function object *)
    log : list Effect               (* DOM writes and calls so far *)
  }.

Definition set_element v w :=
  mkWorld v (lastDeltaX w) (lastDeltaY w) (lastEnd w) (lastStart w) (lastX w) (lastY w)
    (scrolling w) (scrollInterval w) (stopTimeout w) (totalDelta w)
    (timers w) (nextTimer w) (moveListeners w) (nextFunction w) (log w).
Definition set_lastDeltaX v w :=
  mkWorld (element w) v (lastDeltaY w) (lastEnd w) (lastStart w) (lastX w) (lastY w)
    (scrolling w) (scrollInterval w) (stopTimeout w) (totalDelta w)
    (timers w) (nextTimer w) (moveListeners w) (nextFunction w) (log w).
Definition set_lastDeltaY v w :=
  mkWorld (element w) (lastDeltaX w) v (lastEnd w) (lastStart w) (lastX w) (lastY w)
    (scrolling w) (scrollInterval w) (stopTimeout w) (totalDelta w)
    (timers w) (nextTimer w) (moveListeners w) (nextFunction w) (log w).
Definition set_lastEnd v w :=
  mkWorld (element w) (lastDeltaX w) (lastDeltaY w) v (lastStart w) (lastX w) (lastY w)
    (scrolling w) (scrollInterval w) (stopTimeout w) (totalDelta w)
    (timers w) (nextTimer w) (moveListeners w) (nextFunction w) (log w).
Definition set_lastStart v w :=
  mkWorld (element w) (lastDeltaX w) (lastDeltaY w) (lastEnd w) v (lastX w) (lastY w)
    (scrolling w) (scrollInterval w) (stopTimeout w) (totalDelta w)
    (timers w) (nextTimer w) (moveListeners w) (nextFunction w) (log w).
Definition set_lastX v w :=
  mkWorld (element w) (lastDeltaX w) (lastDeltaY w) (lastEnd w) (lastStart w) v (lastY w)
    (scrolling w) (scrollInterval w) (stopTimeout w) (totalDelta w)
    (timers w) (nextTimer w) (moveListeners w) (nextFunction w) (log w).
Definition set_lastY v w :=
  mkWorld (element w) (lastDeltaX w) (lastDeltaY w) (lastEnd w) (lastStart w) (lastX w) v
    (scrolling w) (scrollInterval w) (stopTimeout w) (totalDelta w)
    (timers w) (nextTimer w) (moveListeners w) (nextFunction w) (log w).
Definition set_scrolling v w :=
  mkWorld (element w) (lastDeltaX w) (lastDeltaY w) (lastEnd w) (lastStart w) (lastX w) (lastY w)
    v (scrollInterval w) (stopTimeout w) (totalDelta w)
    (timers w) (nextTimer w) (moveListeners w) (nextFunction w) (log w).
Definition set_scrollInterval v w :=
  mkWorld (element w) (lastDeltaX w) (lastDeltaY w) (lastEnd w) (lastStart w) (lastX w) (lastY w)
    (scrolling w) v (stopTimeout w) (totalDelta w)
    (timers w) (nextTimer w) (moveListeners w) (nextFunction w) (log w).
Definition set_stopTimeout v w :=
  mkWorld (element w) (lastDeltaX w) (lastDeltaY w) (lastEnd w) (lastStart w) (lastX w) (lastY w)
    (scrolling w) (scrollInterval w) v (totalDelta w)
    (timers w) (nextTimer w) (moveListeners w) (nextFunction w) (log w).
Definition set_totalDelta v w :=
  mkWorld (element w) (lastDeltaX w) (lastDeltaY w) (lastEnd w) (lastStart w) (lastX w) (lastY w)
    (scrolling w) (scrollInterval w) (stopTimeout w) v
    (timers w) (nextTimer w) (moveListeners w) (nextFunction w) (log w).
Definition set_timers v w :=
  mkWorld (element w) (lastDeltaX w) (lastDeltaY w) (lastEnd w) (lastStart w) (lastX w) (lastY w)
    (scrolling w) (scrollInterval w) (stopTimeout w) (totalDelta w)
    v (nextTimer w) (moveListeners w) (nextFunction w) (log w).
Definition set_nextTimer v w :=
  mkWorld (element w) (lastDeltaX w) (lastDeltaY w) (lastEnd w) (lastStart w) (lastX w) (lastY w)
    (scrolling w) (scrollInterval w) (stopTimeout w) (totalDelta w)
    (timers w) v (moveListeners w) (nextFunction w) (log w).
Definition set_moveListeners v w :=
  mkWorld (element w) (lastDeltaX w) (lastDeltaY w) (lastEnd w) (lastStart w) (lastX w) (lastY w)
    (scrolling w) (scrollInterval w) (stopTimeout w) (totalDelta w)
    (timers w) (nextTimer w) v (nextFunction w) (log w).
Definition set_nextFunction v w :=
  mkWorld (element w) (lastDeltaX w) (lastDeltaY w) (lastEnd w) (lastStart w) (lastX w) (lastY w)
    (scrolling w) (scrollInterval w) (stopTimeout w) (totalDelta w)
    (timers w) (nextTimer w) (moveListeners w) v (log w).
Definition emit (fs : list Effect) w :=
  mkWorld (element w) (lastDeltaX w) (lastDeltaY w) (lastEnd w) (lastStart w) (lastX w) (lastY w)
    (scrolling w) (scrollInterval w) (stopTimeout w) (totalDelta w)
    (timers w) (nextTimer w) (moveListeners w) (nextFunction w) (log w ++ fs).

(** The state right after the constructor ran: the two functions bound by
    [addEvents] took the identities 0 and 1. *)
Definition initial : World :=
  mkWorld None 0 0 0 0 0 0 false None None 0 ∅ 1%nat [] 2%nat [].

(** ** The host: timers and listeners *)

Definition setTimer (t : Timer) (w : World) : nat * World :=
  (nextTimer w,
   set_nextTimer (S (nextTimer w)) (set_timers (<[nextTimer w := t]> (timers w)) w)).

(** [clearTimeout] and [clearInterval]: one table of handles. *)
Definition clearTimer (h : nat) (w : World) : World :=
  set_timers (delete h (timers w)) w.

(** [clearTimeout(h)] / [clearInterval(h)] for a field that may hold null. *)
Definition clearHandle (h : option nat) (w : World) : World :=
  match h with
  | Some t => clearTimer t w
  | None => w
  end.

(** [this.onMove.bind( this )]: a new function object at every call. *)
Definition bind (w : World) : nat * World :=
  (nextFunction w, set_nextFunction (S (nextFunction w)) w).

(** [addEventListener] ignores a function that is already registered,
    [removeEventListener] removes the function it is given. *)
Definition addEventListener (f : nat) (w : World) : World :=
  if existsb (Nat.eqb f) (moveListeners w) then w
  else set_moveListeners (moveListeners w ++ [f]) w.

Definition removeEventListener (f : nat) (w : World) : World :=
  set_moveListeners (List.filter (fun g => negb (Nat.eqb g f)) (moveListeners w)) w.

Definition addMoveEvent (w : World) : World :=
  let (f, w) := bind w in addEventListener f w.

Definition removeMoveEvent (w : World) : World :=
  let (f, w) := bind w in removeEventListener f w.

(** ** Events delivered by the host

    [clientX], [clientY] are what [getX], [getY] extract from the event
    (the first touch of a touch event, the pointer of a mouse event). *)
Record PointerEvent : Type :=
  mkPointerEvent {
    target : option Element;
    timeStamp : Q;
    clientX : Q;
    clientY : Q
  }.

Definition getCoordinates (event : PointerEvent) : Q * Q :=
  (clientX event, clientY event).

Definition setCoordinates (event : PointerEvent) (w : World) : World :=
  set_lastY (clientY event) (set_lastX (clientX event) w).

Definition isScrolling (w : World) : bool :=
  scrolling w && match element w with Some _ => true | None => false end.

(** ** The handlers of the class *)

Section Handlers.

Variable cfg : Config.

(** [getDelta]: the constructor replaces the identity by a multiplication
    when a sensibility other than 1 is given. *)
Definition getDelta (value : Q) : Q :=
  if Qeq_bool (sensibility cfg) 1 then value
  else (value * sensibility cfg)%Q.

(** [scrollBy]: the constructor keeps the two-axis method for [BOTH] and
    installs a one-axis function for [HORIZONTAL] and for [VERTICAL].
    It is only called with an element set. *)
Definition scrollBy (x y : Q) (w : World) : World :=
  match element w with
  | None => w
  | Some el =>
      match type cfg with
      | HORIZONTAL => emit [ScrollLeftAdd el (Finite (getDelta x))] w
      | VERTICAL => emit [ScrollTopAdd el (Finite (getDelta y))] w
      | BOTH => emit [ScrollLeftAdd el (Finite (getDelta x));
                      ScrollTopAdd el (Finite (getDelta y))] w
      end
  end.

(** One run of the function given to [setInterval] by [smoothScrollBy];
    [h] is the handle under which the host keeps the closure [c]. *)
Definition scrollIntervalCallback (h : nat) (c : FlingClosure) (w : World) : World :=
  match fl_element c with
  | None => clearHandle (scrollInterval w) w
  | Some el =>
      let goX := gtb (abs (fl_delta_x c)) (Finite 1)
                 && negb (TouchTypes_eqb (type cfg) VERTICAL) in
      let valueX := div (fl_delta_x c) (fl_time c) in
      let w := if goX then emit [ScrollLeftAdd el valueX] w else w in
      let dx := if goX then sub (fl_delta_x c) valueX else fl_delta_x c in
      let goY := gtb (abs (fl_delta_y c)) (Finite 1)
                 && negb (TouchTypes_eqb (type cfg) HORIZONTAL) in
      let valueY := div (fl_delta_y c) (fl_time c) in
      let w := if goY then emit [ScrollTopAdd el (div (fl_delta_y c) (fl_time c))] w
               else w in
      let dy := if goY then sub (fl_delta_y c) valueY else fl_delta_y c in
      let count := (fl_count c + 1)%Z in
      let c' := mkFlingClosure (fl_element c) dx dy (fl_time c) count in
      let w := set_timers (<[h := ScrollInterval c']> (timers w)) w in
      if geb (Finite (inject_Z count)) (fl_time c)
      then clearHandle (scrollInterval w) w
      else w
  end.

Definition smoothScrollBy (element : option Element) (x y time : number)
    (w : World) : World :=
  let w := clearHandle (scrollInterval w) w in
  let (h, w) := setTimer (ScrollInterval (mkFlingClosure element x y time 0)) w in
  set_scrollInterval (Some h) w.

(** The function given to [setTimeout] by [onEnd]. *)
Definition stopTimeoutCallback (w : World) : World :=
  let w := clearHandle (stopTimeout w) w in
  set_scrolling false (set_element None w).

Definition onEnd (event : PointerEvent) (w : World) : World :=
  let w := removeMoveEvent w in
  if Qltb (totalDelta w) (minimum cfg) then
    set_scrolling false (set_element None w)
  else
    let w := emit [PreventDefault] w in
    let w :=
      if continuous cfg then
        let w := set_lastEnd (timeStamp event) w in
        let time := ((lastEnd w - lastStart w) * TIME_MULTIPLIER)%Q in
        let x := if Qeq_bool (lastDeltaX w) 0 then Finite 0
                 else div (Finite (lastDeltaX w)) (Finite time) in
        let y := if Qeq_bool (lastDeltaY w) 0 then Finite 0
                 else div (Finite (lastDeltaY w)) (Finite time) in
        let w := smoothScrollBy (element w) x y
                   (div (Finite MOVEMENT_STEPS) (Finite time)) w in
        set_lastDeltaY 0 (set_lastDeltaX 0 w)
      else w in
    let w := clearHandle (stopTimeout w) w in
    let w := set_scrolling false w in
    let (h, w) := setTimer StopTimeout w in
    set_stopTimeout (Some h) w.

Definition onMove (event : PointerEvent) (w : World) : World :=
  match element w with
  | None => w
  | Some _ =>
      let w := emit [PreventDefault] w in
      let coordinates := getCoordinates event in
      let dx := (lastX w - fst coordinates)%Q in
      let dy := (lastY w - snd coordinates)%Q in
      let w := scrollBy dx dy w in
      let w := set_lastX (fst coordinates) w in
      let w := set_lastY (snd coordinates) w in
      let w := set_totalDelta (totalDelta w + (Qabs dx + Qabs dy))%Q w in
      if Qgtb (totalDelta w) (minimum cfg) then
        let w := set_scrolling true w in
        if continuous cfg then
          if Qgtb (timeStamp event - lastStart w) ZERO_THRESHOLD then
            set_lastStart (timeStamp event) (set_lastDeltaY 0 (set_lastDeltaX 0 w))
          else
            set_lastDeltaY (lastDeltaY w + getDelta dy)%Q
              (set_lastDeltaX (lastDeltaX w + getDelta dx)%Q w)
        else w
      else w
  end.

Definition onStart (event : PointerEvent) (w : World) : World :=
  let w := set_element (findScrollable cfg (target event) 0) w in
  match element w with
  | None => w
  | Some _ =>
      let w := set_totalDelta 0 w in
      let w := if continuous cfg then set_lastStart (timeStamp event) w else w in
      let w := setCoordinates event w in
      addMoveEvent w
  end.

(** ** Runs *)

Inductive Event : Type :=
| EvStart (event : PointerEvent)    (* mousedown / touchstart *)
| EvMove (event : PointerEvent)     (* mousemove / touchmove *)
| EvEnd (event : PointerEvent)      (* mouseup / touchend *)
| EvTimer (h : nat).                (* the host runs the callback of timer h *)

(** A timeout leaves the table when it fires, an interval stays. *)
Definition fireTimer (h : nat) (w : World) : World :=
  match timers w !! h with
  | None => w
  | Some StopTimeout => stopTimeoutCallback (clearTimer h w)
  | Some (ScrollInterval c) => scrollIntervalCallback h c w
  end.

(** A move event is handed to every registered listener in turn; each
    of them is a bound copy of [onMove]. *)
Definition dispatch (ev : Event) (w : World) : World :=
  match ev with
  | EvStart event => onStart event w
  | EvMove event =>
      fold_left (fun w (_ : nat) => onMove event w) (moveListeners w) w
  | EvEnd event => onEnd event w
  | EvTimer h => fireTimer h w
  end.

Definition run (evs : list Event) (w : World) : World :=
  fold_left (fun w ev => dispatch ev w) evs w.

End Handlers.

(** ** Notions used by the properties *)

(** Well-formed worlds: handles in use are below the counter they were
    drawn from, a live interval is the one whose handle the class holds in
    [scrollInterval], a pending timeout is the one held in [stopTimeout],
    and registered listeners are function objects that were created. *)

Record wf (w : World) : Prop :=
  mkWf {
    wf_fresh : forall h t, timers w !! h = Some t -> (h < nextTimer w)%nat;
    wf_interval_fresh : forall h, scrollInterval w = Some h -> (h < nextTimer w)%nat;
    wf_timeout_fresh : forall h, stopTimeout w = Some h -> (h < nextTimer w)%nat;
    wf_distinct : forall h, scrollInterval w = Some h -> stopTimeout w <> Some h;
    wf_interval : forall h c,
      timers w !! h = Some (ScrollInterval c) -> scrollInterval w = Some h;
    wf_timeout : forall h, timers w !! h = Some StopTimeout -> stopTimeout w = Some h;
    wf_listeners : forall f, In f (moveListeners w) -> (f < nextFunction w)%nat
  }.

(** The fields [onMove] leaves alone. *)
Definition sameHost (w w' : World) : Prop :=
  element w' = element w /\ timers w' = timers w /\ nextTimer w' = nextTimer w /\
  scrollInterval w' = scrollInterval w /\ stopTimeout w' = stopTimeout w /\
  moveListeners w' = moveListeners w /\ nextFunction w' = nextFunction w.

(** The effects a configuration permits: a one-axis mode never writes the
    other axis. *)
Definition allowed (cfg : Config) (f : Effect) : bool :=
  match f with
  | PreventDefault => true
  | ScrollLeftAdd _ _ => negb (TouchTypes_eqb (type cfg) VERTICAL)
  | ScrollTopAdd _ _ => negb (TouchTypes_eqb (type cfg) HORIZONTAL)
  end.

(** A drag is being tracked after a run when the last start event found a
    scrollable element and no end event came after it. *)
Definition trackingStep (cfg : Config) (tr : bool) (ev : Event) : bool :=
  match ev with
  | EvStart event =>
      match findScrollable cfg (target event) 0 with
      | Some _ => true
      | None => false
      end
  | EvEnd _ => false
  | _ => tr
  end.

Definition tracking (cfg : Config) (evs : list Event) : bool :=
  fold_left (trackingStep cfg) evs false.

(** The controller coasts while the interval of a fling is live. *)
Definition coasting (w : World) : bool :=
  match scrollInterval w with
  | Some h =>
      match timers w !! h with
      | Some (ScrollInterval _) => true
      | _ => false
      end
  | None => false
  end.

(** The timeout scheduled by the last end event has not fired yet. *)
Definition settlePending (w : World) : bool :=
  match stopTimeout w with
  | Some h =>
      match timers w !! h with
      | Some StopTimeout => true
      | _ => false
      end
  | None => false
  end.





(** The start events of a run that found a scrollable element. *)
Definition startFinds (cfg : Config) (ev : Event) : bool :=
  match ev with
  | EvStart event =>
      match findScrollable cfg (target event) 0 with
      | Some _ => true
      | None => false
      end
  | _ => false
  end.

Definition successfulStarts (cfg : Config) (evs : list Event) : nat :=
  length (List.filter (startFinds cfg) evs).

(** An effect that moves nothing: a call of [preventDefault] or a write of
    a zero amount. *)
Definition idle (f : Effect) : Prop :=
  match f with
  | PreventDefault => True
  | ScrollLeftAdd _ v => JSNumber.eq v (Finite 0)
  | ScrollTopAdd _ v => JSNumber.eq v (Finite 0)
  end.

(** The element an effect writes to, if it is a write. *)
Definition written (f : Effect) : option Element :=
  match f with
  | PreventDefault => None
  | ScrollLeftAdd e _ => Some e
  | ScrollTopAdd e _ => Some e
  end.

(** The writes of [scrollBy] on the element [el] for the deltas [x], [y]. *)
Definition scrollWrites (cfg : Config) (el : Element) (x y : Q) : list Effect :=
  match type cfg with
  | HORIZONTAL => [ScrollLeftAdd el (Finite (getDelta cfg x))]
  | VERTICAL => [ScrollTopAdd el (Finite (getDelta cfg y))]
  | BOTH => [ScrollLeftAdd el (Finite (getDelta cfg x));
             ScrollTopAdd el (Finite (getDelta cfg y))]
  end.

(** A world in which no fling was ever started and the fields that only
    the continuous mode writes still hold their initial values. *)
Definition neverFlung (w : World) : Prop :=
  scrollInterval w = None /\
  (forall h c, timers w !! h <> Some (ScrollInterval c)) /\
  lastDeltaX w = 0%Q /\ lastDeltaY w = 0%Q /\ lastStart w = 0%Q /\ lastEnd w = 0%Q.

(** Every element the controller holds, every element a live fling holds
    and every element written so far satisfies [isScrollable]. *)
Definition onlyScrollable (cfg : Config) (w : World) : Prop :=
  (forall el, element w = Some el -> isScrollable cfg el = true) /\
  (forall h c el, timers w !! h = Some (ScrollInterval c) ->
                  fl_element c = Some el -> isScrollable cfg el = true) /\
  (forall f el, In f (log w) -> written f = Some el -> isScrollable cfg el = true).

(** Events other than move events. *)
Definition notMove (ev : Event) : bool :=
  match ev with
  | EvMove _ => false
  | _ => true
  end.

(** ** Sample documents and events used by the examples *)

Module Sample.

Definition body : Element :=
  mkElement 0 true [] [] "" "visible" "visible" 0 0 0 0 None.

(** A pane marked with the default attribute. *)
Definition pane : Element :=
  mkElement 1 true ["tss"] [] "" "auto" "auto" 500 300 500 300 (Some body).

Definition item : Element :=
  mkElement 2 true [] [] "" "visible" "visible" 0 0 0 0 (Some pane).

(** An SVG element: an [Element] that is not an [HTMLElement], with
    styles and extents that would make an HTML element scrollable. *)
Definition svg : Element :=
  mkElement 3 false [] [] "" "auto" "auto" 500 300 500 300 (Some body).

(** The same data on an HTML element, and with [overflow-y: hidden]. *)
Definition tall : Element :=
  mkElement 4 true [] [] "" "visible" "auto" 300 300 500 300 (Some body).

Definition clipped : Element :=
  mkElement 5 true [] [] "" "visible" "hidden" 300 300 500 300 (Some body).

(** [n] unmarked elements stacked below [top]: [top] is [n] hops away
    from [chain n top]. *)
Fixpoint chain (n : nat) (top : Element) : Element :=
  match n with
  | O => top
  | S k => mkElement (S (uid top) + n) true [] [] "" "visible" "visible" 0 0 0 0
             (Some (chain k top))
  end.

Definition marked : Element :=
  mkElement 0 true ["tss"] [] "" "visible" "visible" 0 0 0 0 None.

(** [new TouchScreen()] and variants. *)
Definition defaults : Config := constructor None None None None None None.
Definition horizontal : Config :=
  constructor None (Some HORIZONTAL) None None None None.
Definition vertical : Config :=
  constructor None (Some VERTICAL) None None None None.
Definition discrete : Config :=
  constructor None None (Some false) None None None.

(** A pointer event on [item] at time [t] and position [(x, y)]. *)
Definition at_ (t x y : Q) : PointerEvent := mkPointerEvent (Some item) t x y.

(** A pointer event on [body], which has no marked ancestor. *)
Definition outside (t x y : Q) : PointerEvent := mkPointerEvent (Some body) t x y.

End Sample.

(** * Properties *)

(** The arithmetic of [number] stays folded in proofs. *)
Arguments div : simpl never.
Arguments sub : simpl never.
Arguments abs : simpl never.
Arguments gtb : simpl never.
Arguments geb : simpl never.

(** ** Rational comparisons *)

Lemma Qltb_true (a b : Q) : Qltb a b = true <-> (a < b)%Q.
Proof.
  unfold Qltb. rewrite negb_true_iff. split; intros H.
  - apply Qnot_le_lt. intros Hle. apply Qle_bool_iff in Hle. congruence.
  - destruct (Qle_bool b a) eqn:E; [|reflexivity].
    apply Qle_bool_iff in E. exfalso. lra.
Qed.

Lemma Qltb_false (a b : Q) : Qltb a b = false <-> (b <= a)%Q.
Proof.
  unfold Qltb. rewrite negb_false_iff. apply Qle_bool_iff.
Qed.

Lemma Qgtb_true (a b : Q) : Qgtb a b = true <-> (b < a)%Q.
Proof. apply Qltb_true. Qed.

Lemma Qgtb_false (a b : Q) : Qgtb a b = false <-> (a <= b)%Q.
Proof. apply Qltb_false. Qed.

Lemma Qeq_bool_true (a b : Q) : Qeq_bool a b = true <-> (a == b)%Q.
Proof. apply Qeq_bool_iff. Qed.

Lemma Qeq_bool_false (a b : Q) : Qeq_bool a b = false <-> ~ (a == b)%Q.
Proof.
  split; intros H.
  - intros E. apply Qeq_bool_iff in E. congruence.
  - destruct (Qeq_bool a b) eqn:E; [|reflexivity].
    apply Qeq_bool_iff in E. contradiction.
Qed.

(** ** Scrollable-surface detection *)

Lemma asciiLowerCase_idempotent (c : ascii) :
  asciiLowerCase (asciiLowerCase c) = asciiLowerCase c.
Proof. destruct c as [[] [] [] [] [] [] [] []]; reflexivity. Qed.

Lemma toAsciiLowerCase_idempotent (s : string) :
  toAsciiLowerCase (toAsciiLowerCase s) = toAsciiLowerCase s.
Proof.
  induction s as [|c s IH]; cbn; [reflexivity|].
  rewrite asciiLowerCase_idempotent, IH. reflexivity.
Qed.

(** On an [HTMLElement] the attribute test does not see the case of the
    name it is asked for. *)
Lemma hasAttribute_HTMLElement (e : Element) (name : string) :
  instanceofHTMLElement e = true ->
  hasAttribute e name = hasAttribute e (toAsciiLowerCase name).
Proof.
  intros H. unfold hasAttribute. rewrite H, toAsciiLowerCase_idempotent. reflexivity.
Qed.

Example hasAttribute_upper_case_name :
  isScrollable (constructor (Some (AttrName "TSS")) None None None None None) Sample.pane
  = true.
Proof. reflexivity. Qed.

Section DetectionFacts.

Variable cfg : Config.

(** The equation of the source function. *)
Lemma findScrollable_eq (startElement : option Element) (iteration : Q) :
  findScrollable cfg startElement iteration =
  match startElement with
  | None => None
  | Some e =>
      if isScrollable cfg e then Some e
      else if Qgtb iteration (iterationLimit cfg) then None
      else findScrollable cfg (parentElement e) (iteration + 1)
  end.
Proof.
  destruct startElement as [e|]; [|reflexivity].
  destruct e; simpl. reflexivity.
Qed.

(** Induction along [parentElement]. *)
Lemma Element_parent_ind (P : Element -> Prop) :
  (forall e, parentElement e = None -> P e) ->
  (forall e p, parentElement e = Some p -> P p -> P e) ->
  forall e, P e.
Proof.
  intros Hroot Hstep. fix IH 1. intros e.
  destruct (parentElement e) as [p|] eqn:E.
  - apply (Hstep e p E). apply IH.
  - apply Hroot, E.
Qed.

Lemma ancestors_eq (e : Element) :
  ancestors e = e :: match parentElement e with
                     | Some p => ancestors p
                     | None => []
                     end.
Proof. destruct e; reflexivity. Qed.

Lemma findScrollableFrom_eq (e : Element) (iteration : Q) :
  findScrollableFrom cfg e iteration =
  if isScrollable cfg e then Some e
  else if Qgtb iteration (iterationLimit cfg) then None
  else match parentElement e with
       | Some p => findScrollableFrom cfg p (iteration + 1)
       | None => None
       end.
Proof. destruct e; reflexivity. Qed.

Lemma Qgtb_compat (a b c : Q) : (a == b)%Q -> Qgtb a c = Qgtb b c.
Proof.
  intros E. destruct (Qgtb b c) eqn:H.
  - apply Qgtb_true in H. apply Qgtb_true. lra.
  - apply Qgtb_false in H. apply Qgtb_false. lra.
Qed.

(** The counter only matters through its value. *)
Lemma findScrollableFrom_compat (e : Element) :
  forall i j : Q, (i == j)%Q ->
  findScrollableFrom cfg e i = findScrollableFrom cfg e j.
Proof.
  induction e as [e Hp | e p Hp IH] using Element_parent_ind; intros i j E;
    rewrite (findScrollableFrom_eq e i), (findScrollableFrom_eq e j), Hp,
      (Qgtb_compat i j _ E); [reflexivity|].
  rewrite (IH (i + 1)%Q (j + 1)%Q); [reflexivity | lra].
Qed.

(** What the search examines.  With an integral limit [L], a call that
    starts counting at [k <= L + 1] looks at the first [L + 2 - k]
    elements of the ancestor chain and returns the first that qualifies:
    the test of the counter comes after the test of the element, and it
    is strict.  Started at 0, the search reaches the element [L + 1]
    hops above the start. *)
Lemma findScrollableFrom_find (L : nat) (e : Element) :
  (iterationLimit cfg == inject_Z (Z.of_nat L))%Q ->
  forall k : nat, (k <= L + 1)%nat ->
  findScrollableFrom cfg e (inject_Z (Z.of_nat k)) =
  List.find (isScrollable cfg) (firstn (L + 2 - k) (ancestors e)).
Proof.
  intros HL.
  induction e as [e Hp | e p Hp IH] using Element_parent_ind; intros k Hk;
    rewrite findScrollableFrom_eq, ancestors_eq, Hp;
    replace (L + 2 - k)%nat with (S (L + 1 - k)) by lia; simpl;
    destruct (isScrollable cfg e); try reflexivity.
  - destruct (L + 1 - k)%nat; destruct (Qgtb _ _); reflexivity.
  - destruct (Qgtb (inject_Z (Z.of_nat k)) (iterationLimit cfg)) eqn:G.
    + apply Qgtb_true in G. rewrite HL in G. rewrite <- Zlt_Qlt in G.
      replace (L + 1 - k)%nat with 0%nat by lia. reflexivity.
    + apply Qgtb_false in G. rewrite HL in G. rewrite <- Zle_Qle in G.
      rewrite (findScrollableFrom_compat p _ (inject_Z (Z.of_nat (S k)))).
      * rewrite IH by lia. f_equal. f_equal. lia.
      * rewrite Nat2Z.inj_succ, <- Z.add_1_r, inject_Z_plus. reflexivity.
Qed.

End DetectionFacts.

(** The scenario of the specification: a chain of sixty elements, only the
    outermost one marked, and the default limit of 50: nothing is found. *)
Example findScrollable_sixty_deep :
  findScrollable Sample.defaults (Some (Sample.chain 59 Sample.marked)) 0 = None.
Proof. vm_compute. reflexivity. Qed.

(** The nearest marked element is returned, the start included. *)
Example findScrollable_nearest :
  findScrollable Sample.defaults (Some Sample.item) 0 = Some Sample.pane /\
  findScrollable Sample.defaults (Some Sample.pane) 0 = Some Sample.pane /\
  findScrollable Sample.defaults (Some Sample.body) 0 = None /\
  findScrollable Sample.defaults None 0 = None.
Proof. repeat split; reflexivity. Qed.

(** C2.  The claim says that [findScrollable(start, 0)] returns none when
    no element within [iterationLimit] hops of the start qualifies.  With
    [iterationLimit = 50] and a chain of 52 elements of which only the
    outermost one (51 hops above the start) is marked, none of the elements
    0 to 50 hops away qualifies, and the code returns the outermost one. *)
Theorem findScrollable_reaches_hop_51 :
  let start := Sample.chain 51 Sample.marked in
  iterationLimit Sample.defaults = 50%Q /\
  length (ancestors start) = 52%nat /\
  forallb (fun a => negb (isScrollable Sample.defaults a))
    (firstn 51 (ancestors start)) = true /\
  nth_error (ancestors start) 51 = Some Sample.marked /\
  findScrollable Sample.defaults (Some start) 0 = Some Sample.marked.
Proof. vm_compute. repeat split. Qed.

(** The scenario of the specification for the heuristic: [overflow-y: auto]
    with [scrollHeight = 500] and [clientHeight = 300] scrolls vertically,
    [overflow-y: hidden] with the same extents does not. *)
Example getScrollability_overflow :
  fst (getScrollability Sample.tall) = {| sx := false; sy := true |} /\
  fst (getScrollability Sample.clipped) = {| sx := false; sy := false |}.
Proof. split; reflexivity. Qed.

(** An HTML element has its computed style read, and its extents on the
    axes whose overflow allows scrolling. *)
Example getScrollability_reads :
  snd (getScrollability Sample.tall) =
    [ReadComputedStyle 4; ReadScrollHeight 4; ReadClientHeight 4] /\
  snd (getScrollability Sample.clipped) = [ReadComputedStyle 5].
Proof. split; reflexivity. Qed.

(** C10.  For an element that is not an [HTMLElement], [getScrollability]
    returns the pair (x: false, y: false) and reads neither the computed
    style nor an extent; it returns a value, whatever the element holds. *)
Theorem getScrollability_not_HTMLElement (element : Element) :
  instanceofHTMLElement element = false ->
  getScrollability element = ({| sx := false; sy := false |}, []).
Proof.
  intros H. unfold getScrollability. rewrite H. reflexivity.
Qed.

Lemma getScrollability_not_HTMLElement_witness :
  instanceofHTMLElement Sample.svg = false /\
  getScrollability Sample.svg = ({| sx := false; sy := false |}, []).
Proof.
  split; [reflexivity|].
  apply (getScrollability_not_HTMLElement Sample.svg). reflexivity.
Defined.

(** ** Well-formed worlds *)

Lemma wf_initial : wf initial.
Proof.
  split; cbn; intros; try discriminate; try contradiction.
Qed.

(** Case analysis on lookups in an updated timer table, and saturation
    with the facts of [wf]. *)
Ltac map_cases :=
  repeat match goal with
    | H : <[?i := _]> _ !! ?j = Some _ |- _ =>
        destruct (decide (i = j));
        [subst; rewrite lookup_insert_eq in H
        | rewrite lookup_insert_ne in H by assumption]
    | H : delete ?i _ !! ?j = Some _ |- _ =>
        apply lookup_delete_Some in H; destruct H
    end.

Ltac wf_saturate :=
  repeat match goal with
    | H : forall h : nat, Some ?x = Some h -> _ |- _ => learn_hyp (H _ eq_refl)
    | H : (forall h : nat, ?x = Some h -> _), H' : ?x = Some _ |- _ =>
        learn_hyp (H _ H')
    | H1 : (forall (h : nat) (t : Timer), ?tm !! h = Some t -> _),
      H : ?tm !! _ = Some _ |- _ => learn_hyp (H1 _ _ H)
    | H5 : (forall (h : nat) (c : FlingClosure),
               ?tm !! h = Some (ScrollInterval c) -> _),
      H : ?tm !! _ = Some (ScrollInterval _) |- _ => learn_hyp (H5 _ _ H)
    | H6 : (forall h : nat, ?tm !! h = Some StopTimeout -> _),
      H : ?tm !! _ = Some StopTimeout |- _ => learn_hyp (H6 _ H)
    | H7 : (forall f : nat, In f ?l -> _), H : In _ ?l |- _ => learn_hyp (H7 _ H)
    end.

Ltac wf_close :=
  intros; map_cases; wf_saturate; simplify_eq;
  try assumption; try lia; try congruence;
  try (intros ?; simplify_eq; lia).

Section Invariants.

Variable cfg : Config.

Lemma sameHost_refl w : sameHost w w.
Proof. repeat split. Qed.

Lemma sameHost_trans w1 w2 w3 : sameHost w1 w2 -> sameHost w2 w3 -> sameHost w1 w3.
Proof.
  unfold sameHost. intros (?&?&?&?&?&?&?) (?&?&?&?&?&?&?).
  repeat split; congruence.
Qed.

Lemma sameHost_wf w w' : sameHost w w' -> wf w -> wf w'.
Proof.
  intros (He&Ht&Hn&Hi&Hs&Hl&Hf) [].
  split; rewrite ?Ht, ?Hn, ?Hi, ?Hs, ?Hl, ?Hf; assumption.
Qed.

Lemma scrollBy_sameHost x y w : sameHost w (scrollBy cfg x y w).
Proof.
  unfold scrollBy. destruct (element w); [|apply sameHost_refl].
  destruct (type cfg); repeat split.
Qed.

Lemma onMove_sameHost event w : sameHost w (onMove cfg event w).
Proof.
  unfold onMove. destruct (element w) eqn:E; [|apply sameHost_refl].
  pose proof (scrollBy_sameHost (lastX w - clientX event) (lastY w - clientY event)
                (emit [PreventDefault] w)) as H.
  unfold sameHost in *. cbn in *.
  repeat match goal with
         | |- context [if ?b then _ else _] => destruct b
         end; cbn; exact H.
Qed.

Lemma moves_sameHost event (fs : list nat) w :
  sameHost w (fold_left (fun w (_ : nat) => onMove cfg event w) fs w).
Proof.
  revert w. induction fs as [|f fs IH]; intros w; cbn.
  - apply sameHost_refl.
  - eapply sameHost_trans; [apply onMove_sameHost | apply IH].
Qed.

Lemma onEnd_wf event w : wf w -> wf (onEnd cfg event w).
Proof.
  intros [H1 H2 H3 H4 H5 H6 H7].
  unfold onEnd, removeMoveEvent, bind, removeEventListener,
    smoothScrollBy, setTimer, clearHandle, clearTimer.
  destruct w as [el ldx ldy le ls lx ly sc si st td tm nt ml nf lg]; cbn in *.
  assert (Hml : forall f, In f (List.filter (fun g => negb (g =? nf)%nat) ml) ->
                          (f < S nf)%nat).
  { intros f Hf. apply filter_In in Hf. destruct Hf as [Hf _]. apply H7 in Hf. lia. }
  destruct (Qltb td (minimum cfg)); [split; cbn; assumption|].
  destruct (continuous cfg); destruct si as [hi|]; destruct st as [hs|]; cbn;
    split; cbn; wf_close.
Qed.

Lemma onStart_wf event w : wf w -> wf (onStart cfg event w).
Proof.
  intros [H1 H2 H3 H4 H5 H6 H7].
  unfold onStart, addMoveEvent, bind, addEventListener, setCoordinates.
  destruct w as [el ldx ldy le ls lx ly sc si st td tm nt ml nf lg]; cbn in *.
  destruct (findScrollable cfg (target event) 0); [|split; cbn; assumption].
  destruct (continuous cfg); cbn; destruct (existsb _ ml); split; cbn; wf_close.
  all: try match goal with
       | H : In _ (_ ++ _) |- _ =>
           apply in_app_or in H; destruct H as [H | [<- | []]]; wf_close
       end.
Qed.

Lemma fireTimer_wf h w : wf w -> wf (fireTimer cfg h w).
Proof.
  intros [H1 H2 H3 H4 H5 H6 H7].
  unfold fireTimer, stopTimeoutCallback, scrollIntervalCallback, clearHandle, clearTimer.
  destruct w as [el ldx ldy le ls lx ly sc si st td tm nt ml nf lg]; cbn in *.
  destruct (tm !! h) as [[|c]|] eqn:E; [| |split; cbn; assumption].
  - destruct st as [hs|]; split; cbn; wf_close.
  - destruct (fl_element c); cbn;
      repeat match goal with
        | |- context [if ?b then _ else _] => destruct b; cbn
        end;
      destruct si as [hi|]; split; cbn; wf_close.
Qed.

Lemma dispatch_wf ev w : wf w -> wf (dispatch cfg ev w).
Proof.
  destruct ev as [event|event|event|h]; cbn.
  - apply onStart_wf.
  - apply sameHost_wf, moves_sameHost.
  - apply onEnd_wf.
  - apply fireTimer_wf.
Qed.

Lemma run_app evs1 evs2 w : run cfg (evs1 ++ evs2) w = run cfg evs2 (run cfg evs1 w).
Proof. unfold run. apply fold_left_app. Qed.

Lemma run_snoc evs ev w : run cfg (evs ++ [ev]) w = dispatch cfg ev (run cfg evs w).
Proof. rewrite run_app. reflexivity. Qed.

Lemma run_wf evs w : wf w -> wf (run cfg evs w).
Proof.
  revert w. induction evs as [|ev evs IH]; intros w Hw; cbn; [assumption|].
  apply IH, dispatch_wf, Hw.
Qed.

(** *** Effects stay within the configured axes *)

Lemma scrollBy_log x y w :
  exists fs, log (scrollBy cfg x y w) = log w ++ fs /\ Forall (fun f => allowed cfg f = true) fs.
Proof.
  unfold scrollBy. destruct (element w) as [el|].
  - destruct (type cfg) eqn:T; eexists; (split; [reflexivity|]);
      repeat constructor; cbn; rewrite T; reflexivity.
  - exists []. split; [symmetry; apply app_nil_r | constructor].
Qed.

Lemma onMove_log event w :
  exists fs, log (onMove cfg event w) = log w ++ fs /\ Forall (fun f => allowed cfg f = true) fs.
Proof.
  unfold onMove. destruct (element w) eqn:E.
  - destruct (scrollBy_log (lastX w - clientX event) (lastY w - clientY event)
                (emit [PreventDefault] w)) as (fs & Hfs & Hall).
    exists (PreventDefault :: fs). split; [|constructor; [reflexivity|assumption]].
    cbn in *.
    repeat match goal with
           | |- context [if ?b then _ else _] => destruct b
           end; cbn; rewrite Hfs, <- app_assoc; reflexivity.
  - exists []. split; [symmetry; apply app_nil_r | constructor].
Qed.

Lemma moves_log event (ls : list nat) w :
  exists fs, log (fold_left (fun w (_ : nat) => onMove cfg event w) ls w) = log w ++ fs
             /\ Forall (fun f => allowed cfg f = true) fs.
Proof.
  revert w. induction ls as [|l ls IH]; intros w; cbn.
  - exists []. split; [symmetry; apply app_nil_r | constructor].
  - destruct (onMove_log event w) as (fs1 & E1 & H1).
    destruct (IH (onMove cfg event w)) as (fs2 & E2 & H2).
    exists (fs1 ++ fs2). split.
    + rewrite E2, E1, app_assoc. reflexivity.
    + apply Forall_app. split; assumption.
Qed.

Lemma onStart_log event w : log (onStart cfg event w) = log w.
Proof.
  unfold onStart, addMoveEvent, bind, addEventListener, setCoordinates.
  destruct w as [el ldx ldy le ls lx ly sc si st td tm nt ml nf lg]; cbn.
  destruct (findScrollable cfg (target event) 0); [|reflexivity].
  destruct (continuous cfg); cbn; destruct (existsb _ _); reflexivity.
Qed.

Lemma onEnd_log event w :
  log (onEnd cfg event w) =
  log w ++ if Qltb (totalDelta w) (minimum cfg) then [] else [PreventDefault].
Proof.
  unfold onEnd, removeMoveEvent, bind, removeEventListener, smoothScrollBy, setTimer,
    clearHandle, clearTimer.
  destruct w as [el ldx ldy le ls lx ly sc si st td tm nt ml nf lg]; cbn.
  destruct (Qltb td (minimum cfg)); cbn; [symmetry; apply app_nil_r|].
  destruct (continuous cfg); cbn; destruct si; destruct st; reflexivity.
Qed.

Lemma fireTimer_log h w :
  exists fs, log (fireTimer cfg h w) = log w ++ fs /\ Forall (fun f => allowed cfg f = true) fs.
Proof.
  unfold fireTimer, stopTimeoutCallback, scrollIntervalCallback, clearHandle, clearTimer.
  destruct w as [el ldx ldy le ls lx ly sc si st td tm nt ml nf lg]; cbn.
  destruct (tm !! h) as [[|c]|].
  - exists []. split; [|constructor]. destruct st; cbn; symmetry; apply app_nil_r.
  - destruct (fl_element c) as [el0|].
    + destruct (gtb (abs (fl_delta_x c)) (Finite 1)
                && negb (TouchTypes_eqb (type cfg) VERTICAL)) eqn:GX;
        destruct (gtb (abs (fl_delta_y c)) (Finite 1)
                  && negb (TouchTypes_eqb (type cfg) HORIZONTAL)) eqn:GY;
        match goal with |- context [geb ?a ?b] => destruct (geb a b) end;
        destruct si; cbn;
        eexists; (split; [rewrite <- ?app_assoc; cbn; try reflexivity;
                          symmetry; apply app_nil_r|]);
        repeat constructor; cbn;
        try (apply andb_prop in GX; apply GX);
        try (apply andb_prop in GY; apply GY).
    + exists []. split; [|constructor].
      destruct si; cbn; symmetry; apply app_nil_r.
  - exists []. split; [symmetry; apply app_nil_r | constructor].
Qed.

Lemma dispatch_log ev w :
  exists fs, log (dispatch cfg ev w) = log w ++ fs /\ Forall (fun f => allowed cfg f = true) fs.
Proof.
  destruct ev as [event|event|event|h]; cbn.
  - exists []. split; [|constructor]. rewrite onStart_log. symmetry; apply app_nil_r.
  - apply moves_log.
  - eexists. split; [apply onEnd_log|]. destruct (Qltb _ _); repeat constructor.
  - apply fireTimer_log.
Qed.

Lemma run_log evs w :
  exists fs, log (run cfg evs w) = log w ++ fs /\ Forall (fun f => allowed cfg f = true) fs.
Proof.
  revert w. induction evs as [|ev evs IH]; intros w; cbn.
  - exists []. split; [symmetry; apply app_nil_r | constructor].
  - destruct (dispatch_log ev w) as (fs1 & E1 & H1).
    destruct (IH (dispatch cfg ev w)) as (fs2 & E2 & H2).
    exists (fs1 ++ fs2). split.
    + unfold run in E2. rewrite E2, E1, app_assoc. reflexivity.
    + apply Forall_app. split; assumption.
Qed.

(** *** The element is held only while tracking or settling *)

Lemma onStart_element event w :
  element (onStart cfg event w) = findScrollable cfg (target event) 0.
Proof.
  unfold onStart, addMoveEvent, bind, addEventListener, setCoordinates.
  destruct w as [el ldx ldy le ls lx ly sc si st td tm nt ml nf lg]; cbn.
  destruct (findScrollable cfg (target event) 0) eqn:F; [|reflexivity].
  destruct (continuous cfg); cbn; destruct (existsb _ _); reflexivity.
Qed.

Lemma sameHost_settlePending w w' :
  sameHost w w' -> settlePending w' = settlePending w.
Proof.
  intros (_ & Ht & _ & _ & Hs & _). unfold settlePending. rewrite Ht, Hs. reflexivity.
Qed.

Lemma onEnd_settlePending event w :
  element (onEnd cfg event w) <> None -> settlePending (onEnd cfg event w) = true.
Proof.
  unfold onEnd, removeMoveEvent, bind, removeEventListener, smoothScrollBy, setTimer,
    clearHandle, clearTimer, settlePending.
  destruct w as [el ldx ldy le ls lx ly sc si st td tm nt ml nf lg]; cbn.
  destruct (Qltb td (minimum cfg)); cbn; [congruence|].
  intros _.
  destruct (continuous cfg); cbn; destruct si; destruct st; cbn;
    rewrite lookup_insert_eq; reflexivity.
Qed.

Lemma settlePending_inv w :
  settlePending w = true ->
  exists hs, stopTimeout w = Some hs /\ timers w !! hs = Some StopTimeout.
Proof.
  unfold settlePending. destruct (stopTimeout w) as [hs|]; [|discriminate].
  destruct (timers w !! hs) as [[|c]|] eqn:E; try discriminate.
  intros _. exists hs. split; [reflexivity | assumption].
Qed.

Lemma fireTimer_settle h w :
  wf w ->
  element (fireTimer cfg h w) <> None ->
  element (fireTimer cfg h w) = element w /\
  (settlePending w = true -> settlePending (fireTimer cfg h w) = true).
Proof.
  intros [H1 H2 H3 H4 H5 H6 H7].
  unfold fireTimer, stopTimeoutCallback, scrollIntervalCallback, clearHandle, clearTimer,
    settlePending.
  destruct w as [el ldx ldy le ls lx ly sc si st td tm nt ml nf lg]; cbn in *.
  destruct (tm !! h) as [[|c]|] eqn:E; cbn; [congruence| |tauto].
  intros _.
  assert (Hpend : forall tm' : gmap nat Timer, (forall hs, tm !! hs = Some StopTimeout ->
                                          st = Some hs -> tm' !! hs = Some StopTimeout) ->
            match st with
            | Some hs => match tm !! hs with Some StopTimeout => true | _ => false end
            | None => false
            end = true ->
            match st with
            | Some hs => match tm' !! hs with Some StopTimeout => true | _ => false end
            | None => false
            end = true).
  { intros tm' Htm'. destruct st as [hs|]; [|discriminate].
    destruct (tm !! hs) as [[|c0]|] eqn:Es; try discriminate.
    intros _. rewrite (Htm' hs Es eq_refl). reflexivity. }
  destruct (fl_element c); cbn;
    repeat match goal with
      | |- context [if ?b then _ else _] => destruct b; cbn
      end;
    destruct si as [hi|]; cbn; (split; [reflexivity|]); apply Hpend;
    intros hs Es Est; subst st;
    rewrite ?lookup_delete_ne, ?lookup_insert_ne; try assumption; try congruence.
  all: intros ->; apply (H4 hs eq_refl); reflexivity.
Qed.

Lemma dispatch_tracking_or_settling ev w tr :
  wf w ->
  (element w <> None -> tr = true \/ settlePending w = true) ->
  element (dispatch cfg ev w) <> None ->
  trackingStep cfg tr ev = true \/ settlePending (dispatch cfg ev w) = true.
Proof.
  intros Hwf IH. destruct ev as [event|event|event|h]; cbn.
  - rewrite onStart_element. destruct (findScrollable cfg (target event) 0); [left|]; tauto.
  - pose proof (moves_sameHost event (moveListeners w) w) as Hs.
    rewrite (sameHost_settlePending _ _ Hs). destruct Hs as (-> & _). exact IH.
  - right. apply onEnd_settlePending. assumption.
  - intros Hel. destruct (fireTimer_settle h w Hwf Hel) as (He & Hp).
    rewrite He in Hel. destruct (IH Hel) as [-> | Hs]; [left; reflexivity|].
    right. apply Hp, Hs.
Qed.

Lemma tracking_snoc evs ev :
  tracking cfg (evs ++ [ev]) = trackingStep cfg (tracking cfg evs) ev.
Proof. unfold tracking. rewrite fold_left_app. reflexivity. Qed.

Lemma run_tracking_or_settling evs :
  element (run cfg evs initial) <> None ->
  tracking cfg evs = true \/ settlePending (run cfg evs initial) = true.
Proof.
  induction evs as [|ev evs IH] using rev_ind.
  - cbn. congruence.
  - rewrite run_snoc, tracking_snoc.
    apply dispatch_tracking_or_settling; [apply run_wf, wf_initial | exact IH].
Qed.

(** *** One fling interval *)

Lemma smoothScrollBy_single el x y t w :
  wf w ->
  let w' := smoothScrollBy el x y t w in
  (forall h, scrollInterval w = Some h -> timers w' !! h = None) /\
  (forall h c, timers w' !! h = Some (ScrollInterval c) ->
               scrollInterval w' = Some h /\ c = mkFlingClosure el x y t 0).
Proof.
  intros [H1 H2 H3 H4 H5 H6 H7].
  unfold smoothScrollBy, setTimer, clearHandle, clearTimer.
  destruct w as [el' ldx ldy le ls lx ly sc si st td tm nt ml nf lg]; cbn in *.
  destruct si as [hi|]; cbn; split.
  - intros h [= <-]. pose proof (H2 hi eq_refl).
    rewrite lookup_insert_ne by lia. apply lookup_delete_eq.
  - intros h c Hc. map_cases; wf_saturate; simplify_eq; tauto.
  - discriminate.
  - intros h c Hc. map_cases; wf_saturate; simplify_eq; tauto.
Qed.

End Invariants.

(** ** Sample runs *)

(** A drag of 100 pixels to the left within 100 ms, released after 250 ms:
    the release velocity is 50 and the fling has 10 steps. *)
Example fling_scenario_state :
  let w := run Sample.defaults
             [EvStart (Sample.at_ 0 100 0); EvMove (Sample.at_ 100 0 0);
              EvEnd (Sample.at_ 250 0 0)] initial in
  element w = Some Sample.pane /\ scrollInterval w = Some 1%nat /\
  stopTimeout w = Some 2%nat /\ coasting w = true /\ settlePending w = true.
Proof. vm_compute. repeat split. Qed.

(** C7.  In a run of a controller configured with the horizontal axis mode
    no effect is a write to a vertical scroll offset, whatever the events
    are (moves with vertical deltas and fling ticks included); with the
    vertical axis mode no effect is a write to a horizontal scroll offset. *)
Theorem axis_mode_frame (cfg : Config) (evs : list Event) (f : Effect) :
  In f (log (run cfg evs initial)) ->
  (type cfg = HORIZONTAL -> writesScrollTop f = false) /\
  (type cfg = VERTICAL -> writesScrollLeft f = false).
Proof.
  intros Hin. destruct (run_log cfg evs initial) as (fs & E & Hall).
  rewrite E in Hin. cbn in Hin. rewrite Forall_forall in Hall.
  apply list_elem_of_In in Hin. specialize (Hall f Hin).
  destruct f; cbn in *; split; intros T; try reflexivity;
    rewrite T in Hall; discriminate.
Qed.

Lemma axis_mode_frame_witness :
  let evs := [EvStart (Sample.at_ 0 0 100); EvMove (Sample.at_ 100 30 0);
              EvEnd (Sample.at_ 250 30 0); EvTimer 1] in
  In (ScrollLeftAdd Sample.pane (Finite (-30))) (log (run Sample.horizontal evs initial)) /\
  ((type Sample.horizontal = HORIZONTAL ->
    writesScrollTop (ScrollLeftAdd Sample.pane (Finite (-30))) = false) /\
   (type Sample.horizontal = VERTICAL ->
    writesScrollLeft (ScrollLeftAdd Sample.pane (Finite (-30))) = false)).
Proof.
  assert (H : In (ScrollLeftAdd Sample.pane (Finite (-30)))
                (log (run Sample.horizontal
                        [EvStart (Sample.at_ 0 0 100); EvMove (Sample.at_ 100 30 0);
                         EvEnd (Sample.at_ 250 30 0); EvTimer 1] initial))).
  { vm_compute. right. left. reflexivity. }
  split; [exact H|].
  exact (axis_mode_frame Sample.horizontal _ _ H).
Defined.

(** With both axes enabled the same events do write the vertical offset:
    the frame property is owed to the axis mode. *)
Example both_axes_write_top :
  existsb writesScrollTop
    (log (run Sample.defaults
            [EvStart (Sample.at_ 0 0 100); EvMove (Sample.at_ 100 30 0)] initial)) = true.
Proof. vm_compute. reflexivity. Qed.

(** C9.  In every reachable state at most one fling interval is live, and
    it is the one whose handle the class holds; [smoothScrollBy] cancels
    the interval held before it creates the new one, which is then the only
    live one. *)
Theorem single_fling_interval (cfg : Config) (evs : list Event) :
  let w := run cfg evs initial in
  (forall h1 h2 c1 c2,
      timers w !! h1 = Some (ScrollInterval c1) ->
      timers w !! h2 = Some (ScrollInterval c2) ->
      h1 = h2 /\ scrollInterval w = Some h1) /\
  (forall el x y t,
      let w' := smoothScrollBy el x y t w in
      (forall h, scrollInterval w = Some h -> timers w' !! h = None) /\
      (forall h c, timers w' !! h = Some (ScrollInterval c) ->
                   scrollInterval w' = Some h /\ c = mkFlingClosure el x y t 0)).
Proof.
  intros w. assert (Hwf : wf w) by apply run_wf, wf_initial. split.
  - intros h1 h2 c1 c2 E1 E2.
    pose proof (wf_interval w Hwf _ _ E1) as I1.
    pose proof (wf_interval w Hwf _ _ E2) as I2.
    split; congruence.
  - intros el x y t. apply smoothScrollBy_single, Hwf.
Qed.

(** Two drags released one after the other while the first fling is still
    running: the first interval (handle 1) is gone, the second (handle 3)
    is live. *)
Example second_fling_replaces_first :
  let w := run Sample.defaults
             [EvStart (Sample.at_ 0 100 0); EvMove (Sample.at_ 100 0 0);
              EvEnd (Sample.at_ 250 0 0); EvTimer 2; EvTimer 1;
              EvStart (Sample.at_ 300 100 0); EvMove (Sample.at_ 400 0 0);
              EvEnd (Sample.at_ 550 0 0)] initial in
  timers w !! 1%nat = None /\ scrollInterval w = Some 3%nat /\ coasting w = true /\
  map fst (map_to_list (timers w)) = [4%nat; 3%nat].
Proof. vm_compute. repeat split. Qed.

(** C5, as amended.  In every reachable state, if the active element is
    set then a drag is being tracked (the last start event found a
    scrollable element and no end event came after it) or the timeout
    scheduled by the last end event is still pending. *)
Theorem element_set_only_tracking_or_settling (cfg : Config) (evs : list Event) :
  element (run cfg evs initial) <> None ->
  tracking cfg evs = true \/ settlePending (run cfg evs initial) = true.
Proof. apply run_tracking_or_settling. Qed.

Lemma element_set_only_tracking_or_settling_witness :
  let evs := [EvStart (Sample.at_ 0 100 0); EvMove (Sample.at_ 100 0 0);
              EvEnd (Sample.at_ 250 0 0)] in
  element (run Sample.defaults evs initial) <> None /\
  (tracking Sample.defaults evs = true \/
   settlePending (run Sample.defaults evs initial) = true).
Proof.
  assert (H : element (run Sample.defaults
                         [EvStart (Sample.at_ 0 100 0); EvMove (Sample.at_ 100 0 0);
                          EvEnd (Sample.at_ 250 0 0)] initial) <> None).
  { vm_compute. discriminate. }
  split; [exact H|].
  exact (element_set_only_tracking_or_settling Sample.defaults _ H).
Defined.

(** C5 as stated fails: after a drag is released and the settle timeout
    (handle 2) has fired, the fling interval is still live, so the
    controller coasts, and the active element is null. *)
Lemma coasting_without_element :
  ~ (forall evs : list Event,
        let w := run Sample.defaults evs initial in
        element w <> None <->
        (tracking Sample.defaults evs = true \/ coasting w = true)).
Proof.
  intros H.
  specialize (H [EvStart (Sample.at_ 0 100 0); EvMove (Sample.at_ 100 0 0);
                 EvEnd (Sample.at_ 250 0 0); EvTimer 2]).
  cbv zeta in H. destruct H as [_ H].
  apply H; [right|]; vm_compute; reflexivity.
Qed.

(** ** The end handler *)

Section EndFacts.

Variable cfg : Config.

Lemma filter_fresh (nf : nat) (ml : list nat) :
  (forall f, In f ml -> (f < nf)%nat) ->
  List.filter (fun g => negb (g =? nf)%nat) ml = ml.
Proof.
  induction ml as [|g ml IH]; intros H; cbn; [reflexivity|].
  assert (Hg : (g < nf)%nat) by (apply H; left; reflexivity).
  destruct (Nat.eqb_spec g nf); [lia|]. cbn. f_equal. apply IH.
  intros f Hf. apply H. right. exact Hf.
Qed.



(** The fling that a qualifying release starts in continuous mode. *)
Lemma onEnd_fling event w :
  wf w -> continuous cfg = true -> (minimum cfg <= totalDelta w)%Q ->
  let w' := onEnd cfg event w in
  let time := ((timeStamp event - lastStart w) * TIME_MULTIPLIER)%Q in
  scrollInterval w' = Some (nextTimer w) /\
  timers w' !! nextTimer w =
    Some (ScrollInterval
            {| fl_element := element w;
               fl_delta_x := if Qeq_bool (lastDeltaX w) 0 then Finite 0
                             else div (Finite (lastDeltaX w)) (Finite time);
               fl_delta_y := if Qeq_bool (lastDeltaY w) 0 then Finite 0
                             else div (Finite (lastDeltaY w)) (Finite time);
               fl_time := div (Finite MOVEMENT_STEPS) (Finite time);
               fl_count := 0 |}) /\
  lastDeltaX w' = 0%Q /\ lastDeltaY w' = 0%Q.
Proof.
  intros Hwf Hc Hle. apply Qltb_false in Hle.
  pose proof (wf_timeout_fresh _ Hwf) as H3.
  unfold onEnd, removeMoveEvent, bind, removeEventListener, smoothScrollBy, setTimer,
    clearHandle, clearTimer.
  destruct w as [el ldx ldy le ls lx ly sc si st td tm nt ml nf lg]; cbn in *.
  rewrite Hle, Hc. cbn.
  destruct si; destruct st as [hs|]; cbn; (split; [reflexivity|]);
    (split; [|split; reflexivity]);
    rewrite lookup_insert_ne by lia;
    try (pose proof (H3 hs eq_refl); rewrite lookup_delete_ne by lia);
    rewrite lookup_insert_eq; reflexivity.
Qed.

End EndFacts.

(** C8.  A press on the pane released without moving (distance 0, below the
    minimum of 25): the end handler clears the element and the flag, creates
    no timer and does not call [preventDefault]; the move listener that the
    start handler registered (function 2) is still registered, because
    [removeMoveEvent] hands a newly bound function to [removeEventListener].
    During the next drag two listeners are registered and one move event
    runs [onMove] twice. *)
Theorem onEnd_tap_keeps_move_listener :
  let w1 := run Sample.defaults [EvStart (Sample.at_ 0 0 0)] initial in
  let w2 := dispatch Sample.defaults (EvEnd (Sample.at_ 50 0 0)) w1 in
  let w3 := run Sample.defaults
              [EvStart (Sample.at_ 100 0 0); EvMove (Sample.at_ 110 10 0)] w2 in
  moveListeners w1 = [2%nat] /\
  element w2 = None /\ scrolling w2 = false /\ timers w2 = ∅ /\ log w2 = [] /\
  moveListeners w2 = [2%nat] /\
  moveListeners w3 = [2%nat; 4%nat] /\
  log w3 = [PreventDefault;
            ScrollLeftAdd Sample.pane (Finite (-10)); ScrollTopAdd Sample.pane (Finite 0);
            PreventDefault;
            ScrollLeftAdd Sample.pane (Finite 0); ScrollTopAdd Sample.pane (Finite 0)].
Proof. vm_compute. repeat split. Qed.

(** ** The fling *)

(** C4.  On a release at or above the minimum in continuous mode the fling
    closure holds, per axis, the accumulated velocity divided by
    [(end time stamp - start time stamp) * 0.008], and 0, without dividing,
    for an axis whose accumulated velocity is zero; its step budget is 20
    divided by the same scaled time.  In the sample drag (100 pixels
    accumulated on x, released 250 ms after the start) the velocity is 50
    and the budget is 10: the interval writes the horizontal offset on each
    of its first ten runs and cancels itself on the tenth. *)
Theorem onEnd_fling_velocity :
  (forall (cfg : Config) (evs : list Event) (event : PointerEvent),
      let w := run cfg evs initial in
      let w' := onEnd cfg event w in
      let time := ((timeStamp event - lastStart w) * TIME_MULTIPLIER)%Q in
      continuous cfg = true -> (minimum cfg <= totalDelta w)%Q ->
      exists c,
        scrollInterval w' = Some (nextTimer w) /\
        timers w' !! nextTimer w = Some (ScrollInterval c) /\
        fl_element c = element w /\ fl_count c = 0%Z /\
        fl_time c = div (Finite MOVEMENT_STEPS) (Finite time) /\
        (~ (lastDeltaX w == 0)%Q ->
         fl_delta_x c = div (Finite (lastDeltaX w)) (Finite time)) /\
        (~ (lastDeltaY w == 0)%Q ->
         fl_delta_y c = div (Finite (lastDeltaY w)) (Finite time)) /\
        ((lastDeltaX w == 0)%Q -> fl_delta_x c = Finite 0) /\
        ((lastDeltaY w == 0)%Q -> fl_delta_y c = Finite 0)) /\
  (let w := run Sample.defaults
              [EvStart (Sample.at_ 0 100 0); EvMove (Sample.at_ 100 0 0)] initial in
   let w' := dispatch Sample.defaults (EvEnd (Sample.at_ 250 0 0)) w in
   (lastDeltaX w == 100)%Q /\ (timeStamp (Sample.at_ 250 0 0) - lastStart w == 250)%Q /\
   (exists c, timers w' !! 1%nat = Some (ScrollInterval c) /\
              JSNumber.eq (fl_delta_x c) (Finite 50) /\
              JSNumber.eq (fl_delta_y c) (Finite 0) /\
              JSNumber.eq (fl_time c) (Finite 10)) /\
   (forall n, (n <= 10)%nat ->
      length (List.filter writesScrollLeft
                (log (run Sample.defaults (repeat (EvTimer 1) n) w')))
      = (1 + n)%nat) /\
   coasting (run Sample.defaults (repeat (EvTimer 1) 9) w') = true /\
   coasting (run Sample.defaults (repeat (EvTimer 1) 10) w') = false).
Proof.
  split.
  - intros cfg evs event w w' time Hc Hle.
    destruct (onEnd_fling cfg event w (run_wf cfg evs initial wf_initial) Hc Hle)
      as (Hi & Ht & _).
    eexists. split; [exact Hi|]. split; [exact Ht|]. cbn.
    repeat split; intros H.
    + apply Qeq_bool_false in H. rewrite H. reflexivity.
    + apply Qeq_bool_false in H. rewrite H. reflexivity.
    + apply Qeq_bool_true in H. rewrite H. reflexivity.
    + apply Qeq_bool_true in H. rewrite H. reflexivity.
  - cbv zeta. split; [vm_compute; reflexivity|]. split; [vm_compute; reflexivity|].
    split.
    + eexists. split; [vm_compute; reflexivity|]. vm_compute. repeat split.
    + split; [|split; vm_compute; reflexivity].
      intros n Hn.
      do 11 (destruct n as [|n]; [vm_compute; reflexivity|]). lia.
Qed.

Lemma onEnd_fling_velocity_witness :
  let evs := [EvStart (Sample.at_ 0 100 0); EvMove (Sample.at_ 100 0 0)] in
  let w := run Sample.defaults evs initial in
  continuous Sample.defaults = true /\ (minimum Sample.defaults <= totalDelta w)%Q /\
  exists c,
    timers (onEnd Sample.defaults (Sample.at_ 250 0 0) w) !! nextTimer w
      = Some (ScrollInterval c) /\
    fl_time c = div (Finite MOVEMENT_STEPS)
                  (Finite ((timeStamp (Sample.at_ 250 0 0) - lastStart w)
                           * TIME_MULTIPLIER)%Q).
Proof.
  assert (Hc : continuous Sample.defaults = true) by reflexivity.
  assert (Hle : (minimum Sample.defaults
                 <= totalDelta (run Sample.defaults
                      [EvStart (Sample.at_ 0 100 0); EvMove (Sample.at_ 100 0 0)]
                      initial))%Q).
  { vm_compute. discriminate. }
  split; [exact Hc|]. split; [exact Hle|].
  destruct (proj1 onEnd_fling_velocity Sample.defaults
              [EvStart (Sample.at_ 0 100 0); EvMove (Sample.at_ 100 0 0)]
              (Sample.at_ 250 0 0) Hc Hle) as (c & _ & Ht & _ & _ & Htime & _).
  exists c. split; [exact Ht | exact Htime].
Defined.

Section FlingFacts.

Variable cfg : Config.

(** What one run of the interval callback does, in a well-formed world. *)
Lemma fireTimer_interval h c w :
  wf w -> timers w !! h = Some (ScrollInterval c) ->
  let w' := fireTimer cfg h w in
  match fl_element c with
  | None => log w' = log w /\ timers w' = delete h (timers w)
  | Some el =>
      let goX := gtb (abs (fl_delta_x c)) (Finite 1)
                 && negb (TouchTypes_eqb (type cfg) VERTICAL) in
      let goY := gtb (abs (fl_delta_y c)) (Finite 1)
                 && negb (TouchTypes_eqb (type cfg) HORIZONTAL) in
      let valueX := div (fl_delta_x c) (fl_time c) in
      let valueY := div (fl_delta_y c) (fl_time c) in
      let c' := {| fl_element := Some el;
                   fl_delta_x := if goX then sub (fl_delta_x c) valueX else fl_delta_x c;
                   fl_delta_y := if goY then sub (fl_delta_y c) valueY else fl_delta_y c;
                   fl_time := fl_time c;
                   fl_count := fl_count c + 1 |} in
      log w' = log w ++ (if goX then [ScrollLeftAdd el valueX] else [])
                     ++ (if goY then [ScrollTopAdd el valueY] else []) /\
      timers w' = if geb (Finite (inject_Z (fl_count c + 1))) (fl_time c)
                  then delete h (timers w)
                  else <[h := ScrollInterval c']> (timers w)
  end.
Proof.
  intros Hwf E. pose proof (wf_interval _ Hwf _ _ E) as Hi.
  unfold fireTimer, scrollIntervalCallback, clearHandle, clearTimer.
  destruct w as [el' ldx ldy le ls lx ly sc si st td tm nt ml nf lg]; cbn in *.
  rewrite E. subst si. destruct (fl_element c) as [el|] eqn:Ee; cbn.
  - destruct (gtb (abs (fl_delta_x c)) (Finite 1)
              && negb (TouchTypes_eqb (type cfg) VERTICAL));
      destruct (gtb (abs (fl_delta_y c)) (Finite 1)
                && negb (TouchTypes_eqb (type cfg) HORIZONTAL));
      destruct (geb _ _); cbn; rewrite ?delete_insert_eq, <- ?app_assoc, ?app_nil_r;
      split; reflexivity.
  - split; reflexivity.
Qed.

(** Effects of a kind [k] that an axis cannot produce any more. *)
Lemma ticks_quiet (k : Effect -> bool) (rem : FlingClosure -> number) h :
  (forall c w, wf w -> timers w !! h = Some (ScrollInterval c) ->
               gtb (abs (rem c)) (Finite 1) = false ->
               (exists fs, log (fireTimer cfg h w) = log w ++ fs
                           /\ Forall (fun f => k f = false) fs) /\
               forall c', timers (fireTimer cfg h w) !! h = Some (ScrollInterval c') ->
                          rem c' = rem c) ->
  forall n w, wf w ->
    (forall c, timers w !! h = Some (ScrollInterval c) ->
               gtb (abs (rem c)) (Finite 1) = false) ->
    exists fs, log (run cfg (repeat (EvTimer h) n) w) = log w ++ fs
               /\ Forall (fun f => k f = false) fs.
Proof.
  intros Hstep. induction n as [|n IH]; intros w Hwf Hq; cbn.
  - exists []. split; [symmetry; apply app_nil_r | constructor].
  - assert (Hone : (exists fs, log (fireTimer cfg h w) = log w ++ fs
                               /\ Forall (fun f => k f = false) fs) /\
                   forall c', timers (fireTimer cfg h w) !! h = Some (ScrollInterval c') ->
                              gtb (abs (rem c')) (Finite 1) = false).
    { destruct (timers w !! h) as [[|c]|] eqn:E.
      - unfold fireTimer. rewrite E. split.
        + exists []. split; [|constructor]. unfold stopTimeoutCallback, clearHandle.
          destruct (stopTimeout _); cbn; symmetry; apply app_nil_r.
        + intros c'. unfold stopTimeoutCallback, clearHandle, clearTimer.
          destruct (stopTimeout _) as [hs|]; cbn; intros Hc;
            repeat (apply lookup_delete_Some in Hc; destruct Hc as [? Hc]); congruence.
      - destruct (Hstep c w Hwf E (Hq c eq_refl)) as (Hlog & Hrem). split; [exact Hlog|].
        intros c' Hc'. rewrite (Hrem c' Hc'). apply (Hq c eq_refl).
      - unfold fireTimer. rewrite E. split.
        + exists []. split; [symmetry; apply app_nil_r | constructor].
        + intros c' Hc'. congruence. }
    destruct Hone as ((fs1 & E1 & F1) & Hq1).
    destruct (IH (fireTimer cfg h w) (fireTimer_wf cfg h w Hwf) Hq1) as (fs2 & E2 & F2).
    exists (fs1 ++ fs2). split.
    + unfold run in E2. rewrite E2, E1, app_assoc. reflexivity.
    + apply Forall_app. split; assumption.
Qed.

Lemma ticks_quiet_x h n w :
  wf w ->
  (forall c, timers w !! h = Some (ScrollInterval c) ->
             gtb (abs (fl_delta_x c)) (Finite 1) = false) ->
  exists fs, log (run cfg (repeat (EvTimer h) n) w) = log w ++ fs
             /\ Forall (fun f => writesScrollLeft f = false) fs.
Proof.
  apply (ticks_quiet writesScrollLeft fl_delta_x).
  intros c w0 Hwf E Hq. pose proof (fireTimer_interval h c w0 Hwf E) as H.
  cbv zeta in H. rewrite Hq in H. cbn in H.
  destruct (fl_element c) as [el|]; destruct H as (Hl & Ht); rewrite Hl, Ht; split.
  - eexists. split; [reflexivity|]. destruct (_ && _); repeat constructor.
  - intros c'. destruct (geb _ _); [rewrite lookup_delete_eq; discriminate|].
    rewrite lookup_insert_eq. intros [= <-]. reflexivity.
  - exists []. split; [symmetry; apply app_nil_r | constructor].
  - intros c'. rewrite lookup_delete_eq. discriminate.
Qed.

Lemma ticks_quiet_y h n w :
  wf w ->
  (forall c, timers w !! h = Some (ScrollInterval c) ->
             gtb (abs (fl_delta_y c)) (Finite 1) = false) ->
  exists fs, log (run cfg (repeat (EvTimer h) n) w) = log w ++ fs
             /\ Forall (fun f => writesScrollTop f = false) fs.
Proof.
  apply (ticks_quiet writesScrollTop fl_delta_y).
  intros c w0 Hwf E Hq. pose proof (fireTimer_interval h c w0 Hwf E) as H.
  cbv zeta in H. rewrite Hq in H. cbn in H.
  destruct (fl_element c) as [el|]; destruct H as (Hl & Ht); rewrite Hl, Ht; split.
  - eexists. split; [reflexivity|]. destruct (_ && _); repeat constructor.
  - intros c'. destruct (geb _ _); [rewrite lookup_delete_eq; discriminate|].
    rewrite lookup_insert_eq. intros [= <-]. reflexivity.
  - exists []. split; [symmetry; apply app_nil_r | constructor].
  - intros c'. rewrite lookup_delete_eq. discriminate.
Qed.

End FlingFacts.

(** C3, as amended.  A run of the fling callback on a live interval whose
    closure is [c]: with an element, each eligible axis (magnitude of the
    remaining delta above 1 and not excluded by the axis mode) is written
    with the remaining delta divided by the step budget [time], the written
    amount is subtracted from the remaining delta, and the counter goes up
    by one; the interval cancels itself when the counter reaches the budget.
    Without an element the callback cancels the interval and writes
    nothing.  An axis whose remaining magnitude is not above 1 is not
    written by this run nor by any later run of the interval. *)
Theorem fling_tick (cfg : Config) (evs : list Event) (h : nat) (c : FlingClosure) :
  let w := run cfg evs initial in
  timers w !! h = Some (ScrollInterval c) ->
  let w' := dispatch cfg (EvTimer h) w in
  match fl_element c with
  | None => log w' = log w /\ timers w' = delete h (timers w)
  | Some el =>
      let goX := gtb (abs (fl_delta_x c)) (Finite 1)
                 && negb (TouchTypes_eqb (type cfg) VERTICAL) in
      let goY := gtb (abs (fl_delta_y c)) (Finite 1)
                 && negb (TouchTypes_eqb (type cfg) HORIZONTAL) in
      let valueX := div (fl_delta_x c) (fl_time c) in
      let valueY := div (fl_delta_y c) (fl_time c) in
      let c' := {| fl_element := Some el;
                   fl_delta_x := if goX then sub (fl_delta_x c) valueX else fl_delta_x c;
                   fl_delta_y := if goY then sub (fl_delta_y c) valueY else fl_delta_y c;
                   fl_time := fl_time c;
                   fl_count := fl_count c + 1 |} in
      log w' = log w ++ (if goX then [ScrollLeftAdd el valueX] else [])
                     ++ (if goY then [ScrollTopAdd el valueY] else []) /\
      timers w' = if geb (Finite (inject_Z (fl_count c + 1))) (fl_time c)
                  then delete h (timers w)
                  else <[h := ScrollInterval c']> (timers w)
  end /\
  (gtb (abs (fl_delta_x c)) (Finite 1) = false ->
   forall n, exists fs,
     log (run cfg (repeat (EvTimer h) n) w) = log w ++ fs /\
     Forall (fun f => writesScrollLeft f = false) fs) /\
  (gtb (abs (fl_delta_y c)) (Finite 1) = false ->
   forall n, exists fs,
     log (run cfg (repeat (EvTimer h) n) w) = log w ++ fs /\
     Forall (fun f => writesScrollTop f = false) fs).
Proof.
  intros w E w'. assert (Hwf : wf w) by apply run_wf, wf_initial.
  split; [exact (fireTimer_interval cfg h c w Hwf E)|].
  split; intros Hq n.
  - apply ticks_quiet_x; [exact Hwf|]. intros c0 E0. congruence.
  - apply ticks_quiet_y; [exact Hwf|]. intros c0 E0. congruence.
Qed.

Lemma fling_tick_witness :
  let evs := [EvStart (Sample.at_ 0 100 0); EvMove (Sample.at_ 100 0 0);
              EvEnd (Sample.at_ 250 0 0)] in
  let w := run Sample.defaults evs initial in
  exists c,
    timers w !! 1%nat = Some (ScrollInterval c) /\
    gtb (abs (fl_delta_y c)) (Finite 1) = false /\
    forall n, exists fs,
      log (run Sample.defaults (repeat (EvTimer 1) n) w) = log w ++ fs /\
      Forall (fun f => writesScrollTop f = false) fs.
Proof.
  eexists. split; [vm_compute; reflexivity|]. split; [vm_compute; reflexivity|].
  refine (proj2 (proj2 (fling_tick Sample.defaults
                          [EvStart (Sample.at_ 0 100 0); EvMove (Sample.at_ 100 0 0);
                           EvEnd (Sample.at_ 250 0 0)] 1%nat _ _)) _).
  - vm_compute. reflexivity.
  - vm_compute. reflexivity.
Defined.

(** C3 as stated fails.  In the sample fling (velocity 50, budget 10) the
    first run leaves 45 to travel and 9 steps; the second run writes
    45 / 10 = 4.5, not 45 / 9 = 5: the divisor is the budget, not the
    number of steps left. *)
Lemma second_tick_divides_by_budget :
  let w := run Sample.defaults
             [EvStart (Sample.at_ 0 100 0); EvMove (Sample.at_ 100 0 0);
              EvEnd (Sample.at_ 250 0 0); EvTimer 1] initial in
  exists c v,
    timers w !! 1%nat = Some (ScrollInterval c) /\
    JSNumber.eq (fl_delta_x c) (Finite 45) /\
    JSNumber.eq (fl_time c) (Finite 10) /\
    fl_count c = 1%Z /\
    log (dispatch Sample.defaults (EvTimer 1) w)
      = log w ++ [ScrollLeftAdd Sample.pane v] /\
    JSNumber.eq v (Finite (9 # 2)) /\
    JSNumber.eq (div (fl_delta_x c)
                   (sub (fl_time c) (Finite (inject_Z (fl_count c))))) (Finite 5) /\
    ~ JSNumber.eq v (div (fl_delta_x c)
                       (sub (fl_time c) (Finite (inject_Z (fl_count c))))).
Proof.
  eexists. eexists. split; [vm_compute; reflexivity|].
  split; [vm_compute; reflexivity|]. split; [vm_compute; reflexivity|].
  split; [vm_compute; reflexivity|]. split; [vm_compute; reflexivity|].
  split; [vm_compute; reflexivity|]. split; [vm_compute; reflexivity|].
  vm_compute. discriminate.
Qed.

(** ** The move handler *)

Section MoveFacts.

Variable cfg : Config.

Lemma getDelta_zero (q : Q) : (q == 0)%Q -> (getDelta cfg q == 0)%Q.
Proof.
  intros E. unfold getDelta. destruct (Qeq_bool _ _); rewrite E; [reflexivity|ring].
Qed.

(** One call of [onMove] with an element set. *)
Lemma onMove_spec event w el :
  element w = Some el ->
  let dx := (lastX w - clientX event)%Q in
  let dy := (lastY w - clientY event)%Q in
  let total := (totalDelta w + (Qabs dx + Qabs dy))%Q in
  let w' := onMove cfg event w in
  element w' = Some el /\ lastX w' = clientX event /\ lastY w' = clientY event /\
  totalDelta w' = total /\
  scrolling w' = (if Qgtb total (minimum cfg) then true else scrolling w) /\
  if Qgtb total (minimum cfg) && continuous cfg then
    if Qgtb (timeStamp event - lastStart w) ZERO_THRESHOLD then
      lastDeltaX w' = 0%Q /\ lastDeltaY w' = 0%Q /\ lastStart w' = timeStamp event
    else
      lastDeltaX w' = (lastDeltaX w + getDelta cfg dx)%Q /\
      lastDeltaY w' = (lastDeltaY w + getDelta cfg dy)%Q /\
      lastStart w' = lastStart w
  else
    lastDeltaX w' = lastDeltaX w /\ lastDeltaY w' = lastDeltaY w /\
    lastStart w' = lastStart w.
Proof.
  intros E. unfold onMove, scrollBy, getCoordinates.
  destruct w as [el' ldx ldy le ls lx ly sc si st td tm nt ml nf lg]; cbn in *.
  subst el'. 
  destruct (type cfg); cbn;
    destruct (Qgtb _ (minimum cfg)); cbn; try (repeat split; fail);
    destruct (continuous cfg); cbn; try (repeat split; fail);
    destruct (Qgtb _ ZERO_THRESHOLD); cbn; repeat split.
Qed.





(** *** A whole drag *)

(** The start handler when it finds an element. *)
Lemma onStart_found event w :
  element (onStart cfg event w) <> None ->
  let w0 := onStart cfg event w in
  totalDelta w0 = 0%Q /\ lastX w0 = clientX event /\ lastY w0 = clientY event /\
  scrolling w0 = scrolling w /\ moveListeners w0 <> [] /\
  lastDeltaX w0 = lastDeltaX w /\ lastDeltaY w0 = lastDeltaY w /\
  (continuous cfg = true -> lastStart w0 = timeStamp event) /\
  timers w0 = timers w /\ scrollInterval w0 = scrollInterval w.
Proof.
  unfold onStart, addMoveEvent, bind, addEventListener, setCoordinates.
  destruct w as [el ldx ldy le ls lx ly sc si st td tm nt ml nf lg]; cbn.
  destruct (findScrollable cfg (target event) 0); [|intros H; exfalso; apply H; reflexivity].
  intros _.
  destruct (continuous cfg); cbn; destruct (existsb _ ml) eqn:Ex; cbn;
    repeat split; try discriminate; try (intros ->; discriminate);
    try (intros Hn; apply app_eq_nil in Hn; destruct Hn; discriminate).
Qed.



(** *** Pauses *)





End MoveFacts.

(** ** Drags *)



(** The window is measured from the start of the drag or from the last
    reset, not from the previous move event: moves that follow each other
    closely still lose the accumulator once 200 ms have passed. *)
Example window_restarts_without_pause :
  let w := run Sample.defaults
             [EvStart (Sample.at_ 0 300 0); EvMove (Sample.at_ 90 200 0);
              EvMove (Sample.at_ 180 100 0); EvMove (Sample.at_ 270 0 0)] initial in
  (lastDeltaX w == 0)%Q /\ (lastStart w == 270)%Q.
Proof. vm_compute. split; reflexivity. Qed.




(** A drag below the minimum, for the first half. *)
Example tap_scenario :
  let w := run Sample.defaults
             [EvStart (Sample.at_ 0 100 0); EvMove (Sample.at_ 30 90 0);
              EvEnd (Sample.at_ 60 90 0)] initial in
  element w = None /\ isScrolling w = false /\ timers w = ∅ /\
  log w = [PreventDefault; ScrollLeftAdd Sample.pane (Finite 10);
           ScrollTopAdd Sample.pane (Finite 0)].
Proof. vm_compute. repeat split. Qed.


(** * Further properties of the class *)

(** ** The ancestor walk *)

(** What a successful search returns, for any limit and counter. *)
Lemma findScrollableFrom_sound (cfg : Config) (e : Element) :
  forall (i : Q) (a : Element),
  findScrollableFrom cfg e i = Some a ->
  exists k : nat,
    nth_error (ancestors e) k = Some a /\ isScrollable cfg a = true /\
    forall (j : nat) (b : Element),
      (j < k)%nat -> nth_error (ancestors e) j = Some b -> isScrollable cfg b = false.
Proof.
  induction e as [e Hp | e p Hp IH] using Element_parent_ind; intros i a;
    rewrite findScrollableFrom_eq, ancestors_eq, Hp;
    destruct (isScrollable cfg e) eqn:Sc.
  - intros [= <-]. exists 0%nat. repeat split; [exact Sc|]. intros j b Hj. lia.
  - destruct (Qgtb _ _); discriminate.
  - intros [= <-]. exists 0%nat. repeat split; [exact Sc|]. intros j b Hj. lia.
  - destruct (Qgtb _ _); [discriminate|]. intros H.
    destruct (IH _ _ H) as (k & Hk & Ha & Hbefore).
    exists (S k). split; [exact Hk|]. split; [exact Ha|].
    intros [|j] b Hj Hb; cbn in Hb.
    + injection Hb as <-. exact Sc.
    + apply (Hbefore j b); [lia | exact Hb].
Qed.

(** X1.  Whatever the limit and the starting counter, an element returned
    by [findScrollable] lies on the ancestor chain of the start element,
    satisfies [isScrollable], and every element before it on the chain
    fails [isScrollable]. *)
Theorem findScrollable_sound (cfg : Config) (e : Element) (i : Q) (a : Element) :
  findScrollable cfg (Some e) i = Some a ->
  exists k : nat,
    nth_error (ancestors e) k = Some a /\ isScrollable cfg a = true /\
    forall (j : nat) (b : Element),
      (j < k)%nat -> nth_error (ancestors e) j = Some b -> isScrollable cfg b = false.
Proof. cbn [findScrollable]. apply findScrollableFrom_sound. Qed.

Lemma findScrollable_sound_witness :
  findScrollable Sample.defaults (Some Sample.item) 0 = Some Sample.pane /\
  exists k : nat,
    nth_error (ancestors Sample.item) k = Some Sample.pane /\
    isScrollable Sample.defaults Sample.pane = true /\
    forall (j : nat) (b : Element),
      (j < k)%nat -> nth_error (ancestors Sample.item) j = Some b ->
      isScrollable Sample.defaults b = false.
Proof.
  split; [reflexivity|].
  apply (findScrollable_sound Sample.defaults Sample.item 0 Sample.pane). reflexivity.
Defined.

(** X2.  With an integral limit [L], [findScrollable(start, 0)] returns the
    first element that satisfies [isScrollable] among the first [L + 2]
    elements of the ancestor chain (the start and the [L + 1] elements
    above it), and none when there is no such element. *)
Theorem findScrollable_examines (cfg : Config) (L : nat) (e : Element) :
  (iterationLimit cfg == inject_Z (Z.of_nat L))%Q ->
  findScrollable cfg (Some e) 0 =
  List.find (isScrollable cfg) (firstn (L + 2) (ancestors e)).
Proof.
  intros HL. cbn [findScrollable].
  pose proof (findScrollableFrom_find cfg L e HL 0) as H.
  rewrite Nat.sub_0_r in H. apply H. lia.
Qed.

Lemma findScrollable_examines_witness :
  (iterationLimit Sample.defaults == inject_Z (Z.of_nat 50))%Q /\
  findScrollable Sample.defaults (Some Sample.item) 0 =
  List.find (isScrollable Sample.defaults) (firstn (50 + 2) (ancestors Sample.item)).
Proof.
  split; [reflexivity|].
  apply (findScrollable_examines Sample.defaults 50 Sample.item). reflexivity.
Defined.

(** X3.  With a negative limit only the start element is examined. *)
Theorem findScrollable_negative_limit (cfg : Config) (e : Element) :
  (iterationLimit cfg < 0)%Q ->
  findScrollable cfg (Some e) 0 = if isScrollable cfg e then Some e else None.
Proof.
  intros H. cbn [findScrollable]. rewrite findScrollableFrom_eq.
  destruct (isScrollable cfg e); [reflexivity|].
  apply Qgtb_true in H. rewrite H. reflexivity.
Qed.

Lemma findScrollable_negative_limit_witness :
  let cfg := constructor None None None None None (Some (-1)%Q) in
  (iterationLimit cfg < 0)%Q /\
  findScrollable cfg (Some Sample.item) 0 = None /\
  findScrollable Sample.defaults (Some Sample.item) 0 = Some Sample.pane.
Proof.
  assert (H : (iterationLimit (constructor None None None None None (Some (-1)%Q)) < 0)%Q)
    by reflexivity.
  split; [exact H|]. split; [|reflexivity].
  rewrite (findScrollable_negative_limit _ Sample.item H). reflexivity.
Defined.

(** X4.  A call that starts with a larger counter stops earlier: what it
    finds is also found by every call with a smaller counter. *)
Theorem findScrollable_counter_monotone (cfg : Config) (start : option Element)
    (i j : Q) (a : Element) :
  (j <= i)%Q ->
  findScrollable cfg start i = Some a -> findScrollable cfg start j = Some a.
Proof.
  destruct start as [e|]; [|discriminate]. cbn [findScrollable]. revert i j.
  induction e as [e Hp | e p Hp IH] using Element_parent_ind; intros i j Hji;
    rewrite !(findScrollableFrom_eq cfg e), Hp;
    destruct (isScrollable cfg e); try (intros H; exact H).
  - destruct (Qgtb i (iterationLimit cfg)); discriminate.
  - destruct (Qgtb i (iterationLimit cfg)) eqn:Gi; [discriminate|].
    apply Qgtb_false in Gi.
    assert (Gj : Qgtb j (iterationLimit cfg) = false) by (apply Qgtb_false; lra).
    rewrite Gj. apply IH. lra.
Qed.

Lemma findScrollable_counter_monotone_witness :
  (0 <= 49)%Q /\
  findScrollable Sample.defaults (Some Sample.item) 49 = Some Sample.pane /\
  findScrollable Sample.defaults (Some Sample.item) 0 = Some Sample.pane.
Proof.
  assert (H : (0 <= 49)%Q) by discriminate.
  assert (F : findScrollable Sample.defaults (Some Sample.item) 49 = Some Sample.pane)
    by reflexivity.
  split; [exact H|]. split; [exact F|].
  exact (findScrollable_counter_monotone Sample.defaults (Some Sample.item) 49 0
           Sample.pane H F).
Defined.

(** ** The selector given to the constructor *)

(** X5.  With the selector disabled ([null]) the element that
    [findScrollable] returns is an [HTMLElement] that scrolls on an axis
    the controller drives: its overflow style on that axis allows
    scrolling and its content exceeds its box by more than one pixel. *)
Theorem heuristic_finds_scrollable (ty : option TouchTypes) (c : option bool)
    (mn sn lm : option Q) (start : option Element) (i : Q) (a : Element) :
  let cfg := constructor (Some AttrNull) ty c mn sn lm in
  let horizontally :=
    overflowAllows (overflowX a) = true /\ (clientWidth a + 1 < scrollWidth a)%Z in
  let vertically :=
    overflowAllows (overflowY a) = true /\ (clientHeight a + 1 < scrollHeight a)%Z in
  findScrollable cfg start i = Some a ->
  instanceofHTMLElement a = true /\
  match type cfg with
  | HORIZONTAL => horizontally
  | VERTICAL => vertically
  | BOTH => horizontally \/ vertically
  end.
Proof.
  intros cfg horizontally vertically H.
  destruct start as [e|]; [|discriminate].
  destruct (findScrollableFrom_sound cfg e i a H) as (_ & _ & Ha & _).
  unfold horizontally, vertically. clear horizontally vertically H.
  subst cfg. unfold isScrollable, getScrollability in Ha.
  destruct (instanceofHTMLElement a); destruct ty as [[| |]|]; cbn in *;
    try discriminate; (split; [reflexivity|]);
    repeat match goal with
      | H : _ || _ = true |- _ => apply orb_prop in H; destruct H as [H | H]
      | H : _ && _ = true |- _ => apply andb_prop in H; destruct H as (? & H)
      | H : (_ <? _)%Z = true |- _ => apply Z.ltb_lt in H
      end; tauto.
Qed.

Lemma heuristic_finds_scrollable_witness :
  let cfg := constructor (Some AttrNull) (Some VERTICAL) None None None None in
  findScrollable cfg (Some Sample.tall) 0 = Some Sample.tall /\
  instanceofHTMLElement Sample.tall = true /\
  overflowAllows (overflowY Sample.tall) = true /\
  (clientHeight Sample.tall + 1 < scrollHeight Sample.tall)%Z.
Proof.
  assert (H : findScrollable (constructor (Some AttrNull) (Some VERTICAL) None None None None)
                (Some Sample.tall) 0 = Some Sample.tall) by reflexivity.
  split; [exact H|].
  exact (heuristic_finds_scrollable (Some VERTICAL) None None None None
           (Some Sample.tall) 0 Sample.tall H).
Defined.

(** ** Presses, listeners and the accumulated distance *)

Section StartFacts.

Variable cfg : Config.

Lemma existsb_fresh (nf : nat) (ml : list nat) :
  (forall f, In f ml -> (f < nf)%nat) -> existsb (Nat.eqb nf) ml = false.
Proof.
  induction ml as [|g ml IH]; intros H; cbn; [reflexivity|].
  assert (Hg : (g < nf)%nat) by (apply H; left; reflexivity).
  destruct (Nat.eqb_spec nf g); [lia|]. cbn. apply IH.
  intros f Hf. apply H. right. exact Hf.
Qed.

Lemma onStart_miss event w :
  findScrollable cfg (target event) 0 = None -> onStart cfg event w = set_element None w.
Proof. intros H. unfold onStart. cbn. rewrite H. reflexivity. Qed.

Lemma onStart_listeners event w :
  wf w ->
  moveListeners (onStart cfg event w) =
  moveListeners w ++ if startFinds cfg (EvStart event) then [nextFunction w] else [].
Proof.
  intros Hwf. pose proof (existsb_fresh _ _ (wf_listeners _ Hwf)) as Hf.
  unfold onStart, addMoveEvent, bind, addEventListener, setCoordinates, startFinds.
  destruct w as [el ldx ldy le ls lx ly sc si st td tm nt ml nf lg]; cbn in *.
  destruct (findScrollable cfg (target event) 0); [|symmetry; apply app_nil_r].
  destruct (continuous cfg); cbn; rewrite Hf; reflexivity.
Qed.

Lemma onEnd_listeners event w :
  wf w -> moveListeners (onEnd cfg event w) = moveListeners w.
Proof.
  intros Hwf. pose proof (filter_fresh _ _ (wf_listeners _ Hwf)) as Hf.
  unfold onEnd, removeMoveEvent, bind, removeEventListener, smoothScrollBy, setTimer,
    clearHandle, clearTimer.
  destruct w as [el ldx ldy le ls lx ly sc si st td tm nt ml nf lg]; cbn in *.
  destruct (Qltb td (minimum cfg)); cbn; [exact Hf|].
  destruct (continuous cfg); cbn; destruct si; destruct st; cbn; exact Hf.
Qed.

(** A timer callback leaves the listeners, the distance and the pointer
    position alone. *)
Lemma fireTimer_fields h w :
  let w' := fireTimer cfg h w in
  moveListeners w' = moveListeners w /\ totalDelta w' = totalDelta w /\
  lastX w' = lastX w /\ lastY w' = lastY w.
Proof.
  unfold fireTimer, stopTimeoutCallback, scrollIntervalCallback, clearHandle, clearTimer.
  destruct w as [el ldx ldy le ls lx ly sc si st td tm nt ml nf lg]; cbn.
  destruct (tm !! h) as [[|c]|]; cbn; [destruct st; repeat split | | repeat split].
  destruct (fl_element c); cbn;
    repeat match goal with
      | |- context [if ?b then _ else _] => destruct b; cbn
      end; destruct si; repeat split.
Qed.

Lemma dispatch_listeners ev w :
  wf w ->
  moveListeners (dispatch cfg ev w) =
  moveListeners w ++ if startFinds cfg ev then [nextFunction w] else [].
Proof.
  intros Hwf. destruct ev as [event|event|event|h].
  - apply onStart_listeners, Hwf.
  - cbn [dispatch startFinds]. rewrite app_nil_r.
    apply (moves_sameHost cfg event (moveListeners w) w).
  - cbn [dispatch startFinds]. rewrite app_nil_r. apply onEnd_listeners, Hwf.
  - cbn [dispatch startFinds]. rewrite app_nil_r. apply fireTimer_fields.
Qed.

Lemma onMove_totalDelta_le event w :
  (totalDelta w <= totalDelta (onMove cfg event w))%Q.
Proof.
  destruct (element w) as [el|] eqn:E.
  - destruct (onMove_spec cfg event w el E) as (_ & _ & _ & -> & _).
    pose proof (Qabs_nonneg (lastX w - clientX event)).
    pose proof (Qabs_nonneg (lastY w - clientY event)). lra.
  - unfold onMove. rewrite E. lra.
Qed.

Lemma moves_totalDelta_le event (fs : list nat) w :
  (totalDelta w <= totalDelta (fold_left (fun w (_ : nat) => onMove cfg event w) fs w))%Q.
Proof.
  revert w. induction fs as [|f fs IH]; intros w; cbn; [lra|].
  pose proof (onMove_totalDelta_le event w). pose proof (IH (onMove cfg event w)). lra.
Qed.

Lemma onEnd_totalDelta event w : totalDelta (onEnd cfg event w) = totalDelta w.
Proof.
  unfold onEnd, removeMoveEvent, bind, removeEventListener, smoothScrollBy, setTimer,
    clearHandle, clearTimer.
  destruct w as [el ldx ldy le ls lx ly sc si st td tm nt ml nf lg]; cbn in *.
  destruct (Qltb td (minimum cfg)); cbn; [reflexivity|].
  destruct (continuous cfg); cbn; destruct si; destruct st; reflexivity.
Qed.

End StartFacts.

(** X6.  A press on a target without a scrollable ancestor only clears the
    element: the accumulated distance of the previous drag is kept.  When
    that distance is at or above the minimum, the release that follows is
    handled as the end of a scroll: the default action is prevented and, in
    continuous mode, a fling is started whose closure holds no element. *)
Theorem release_after_missed_press (cfg : Config) (evs : list Event)
    (press release : PointerEvent) :
  let w := run cfg evs initial in
  let w1 := dispatch cfg (EvStart press) w in
  let w2 := dispatch cfg (EvEnd release) w1 in
  findScrollable cfg (target press) 0 = None ->
  (minimum cfg <= totalDelta w)%Q ->
  w1 = set_element None w /\
  log w2 = log w ++ [PreventDefault] /\
  (continuous cfg = true ->
   exists c, timers w2 !! nextTimer w = Some (ScrollInterval c) /\ fl_element c = None).
Proof.
  intros w w1 w2 Hmiss Hle.
  assert (E1 : w1 = set_element None w) by (apply onStart_miss; exact Hmiss).
  split; [exact E1|].
  assert (Hle1 : (minimum cfg <= totalDelta w1)%Q) by (rewrite E1; exact Hle).
  split.
  - unfold w2. cbn [dispatch]. rewrite onEnd_log.
    apply Qltb_false in Hle1. rewrite Hle1, E1. reflexivity.
  - intros Hc.
    assert (Hwf : wf w1) by (apply dispatch_wf, run_wf, wf_initial).
    destruct (onEnd_fling cfg release w1 Hwf Hc Hle1) as (_ & Ht & _).
    rewrite E1 in Ht at 1. cbn [nextTimer set_element] in Ht.
    eexists. split; [exact Ht|]. rewrite E1. reflexivity.
Qed.

Lemma release_after_missed_press_witness :
  let evs := [EvStart (Sample.at_ 0 100 0); EvMove (Sample.at_ 100 0 0)] in
  let w := run Sample.defaults evs initial in
  let w2 := dispatch Sample.defaults (EvEnd (Sample.outside 1050 0 0))
              (dispatch Sample.defaults (EvStart (Sample.outside 1000 0 0)) w) in
  findScrollable Sample.defaults (target (Sample.outside 1000 0 0)) 0 = None /\
  (minimum Sample.defaults <= totalDelta w)%Q /\
  log w2 = log w ++ [PreventDefault].
Proof.
  assert (Hm : findScrollable Sample.defaults (target (Sample.outside 1000 0 0)) 0 = None)
    by reflexivity.
  assert (Hle : (minimum Sample.defaults
                 <= totalDelta (run Sample.defaults
                      [EvStart (Sample.at_ 0 100 0); EvMove (Sample.at_ 100 0 0)]
                      initial))%Q).
  { vm_compute. discriminate. }
  split; [exact Hm|]. split; [exact Hle|].
  exact (proj1 (proj2 (release_after_missed_press Sample.defaults
                         [EvStart (Sample.at_ 0 100 0); EvMove (Sample.at_ 100 0 0)]
                         (Sample.outside 1000 0 0) (Sample.outside 1050 0 0) Hm Hle))).
Defined.

(** X7.  The move listeners pile up: in every run the number of functions
    registered for the move event is the number of start events that found
    a scrollable element so far; no end event takes one away. *)
Theorem move_listeners_pile_up (cfg : Config) (evs : list Event) :
  length (moveListeners (run cfg evs initial)) = successfulStarts cfg evs.
Proof.
  unfold successfulStarts.
  induction evs as [|ev evs IH] using rev_ind; [reflexivity|].
  rewrite run_snoc, List.filter_app, !length_app, <- IH.
  rewrite (dispatch_listeners cfg ev _ (run_wf cfg evs initial wf_initial)).
  rewrite length_app. cbn [List.filter]. destruct (startFinds cfg ev); reflexivity.
Qed.

(** Three presses, two of them on the pane, each released: two listeners. *)
Example two_listeners_after_two_taps :
  moveListeners (run Sample.defaults
                   [EvStart (Sample.at_ 0 0 0); EvEnd (Sample.at_ 10 0 0);
                    EvStart (Sample.outside 20 0 0); EvEnd (Sample.outside 30 0 0);
                    EvStart (Sample.at_ 40 0 0); EvEnd (Sample.at_ 50 0 0)] initial)
  = [2%nat; 5%nat].
Proof. vm_compute. reflexivity. Qed.

(** X8.  The accumulated distance is set to zero by a start event that
    finds a scrollable element and by nothing else: a start event that
    finds none, an end event and a timer callback leave it as it is, and a
    move event never lowers it. *)
Theorem totalDelta_reset_only_by_start (cfg : Config) (ev : Event) (w : World) :
  let w' := dispatch cfg ev w in
  match ev with
  | EvStart _ => totalDelta w' = if startFinds cfg ev then 0%Q else totalDelta w
  | EvMove _ => (totalDelta w <= totalDelta w')%Q
  | EvEnd _ => totalDelta w' = totalDelta w
  | EvTimer _ => totalDelta w' = totalDelta w
  end.
Proof.
  destruct ev as [event|event|event|h]; cbn [dispatch].
  - cbn [startFinds]. destruct (findScrollable cfg (target event) 0) eqn:F.
    + assert (Hel : element (onStart cfg event w) <> None)
        by (rewrite onStart_element, F; discriminate).
      apply (onStart_found cfg event w Hel).
    + rewrite (onStart_miss cfg event w F). reflexivity.
  - apply moves_totalDelta_le.
  - apply onEnd_totalDelta.
  - apply fireTimer_fields.
Qed.

(** ** What a move event writes *)

Section MoveWrites.

Variable cfg : Config.

Lemma getDelta_scale (v : Q) : (getDelta cfg v == sensibility cfg * v)%Q.
Proof.
  unfold getDelta. destruct (Qeq_bool (sensibility cfg) 1) eqn:E.
  - apply Qeq_bool_true in E. rewrite E. ring.
  - ring.
Qed.

Lemma onMove_log_exact event w el :
  element w = Some el ->
  log (onMove cfg event w) =
  log w ++ PreventDefault
           :: scrollWrites cfg el (lastX w - clientX event) (lastY w - clientY event).
Proof.
  intros E. unfold onMove, scrollBy, getCoordinates, scrollWrites.
  destruct w as [el' ldx ldy le ls lx ly sc si st td tm nt ml nf lg]; cbn in *.
  subst el'.
  destruct (type cfg); cbn;
    repeat match goal with
      | |- context [if ?b then _ else _] => destruct b; cbn
      end; rewrite <- app_assoc; reflexivity.
Qed.

Lemma scrollWrites_idle el (x y : Q) :
  (x == 0)%Q -> (y == 0)%Q -> Forall idle (scrollWrites cfg el x y).
Proof.
  intros Hx Hy. unfold scrollWrites.
  destruct (type cfg); repeat constructor; cbn; apply getDelta_zero; assumption.
Qed.

Lemma later_calls_idle event el (fs : list nat) :
  forall w1, element w1 = Some el ->
  lastX w1 = clientX event -> lastY w1 = clientY event ->
  exists extra,
    log (fold_left (fun w (_ : nat) => onMove cfg event w) fs w1) = log w1 ++ extra /\
    Forall idle extra.
Proof.
  induction fs as [|f fs IH]; intros w1 E Hx Hy; cbn.
  - exists []. split; [symmetry; apply app_nil_r | constructor].
  - destruct (onMove_spec cfg event w1 el E) as (E' & Hx' & Hy' & _).
    destruct (IH (onMove cfg event w1) E' Hx' Hy') as (extra & Hlog & Hidle).
    rewrite Hlog, (onMove_log_exact event w1 el E), Hx, Hy, <- app_assoc.
    eexists. split; [reflexivity|].
    apply Forall_app. split; [|exact Hidle].
    constructor; [exact I|]. apply scrollWrites_idle; ring.
Qed.

End MoveWrites.

(** X9.  The listeners that piled up move nothing.  When a move event is
    handled with an element set, the first call of [onMove] issues the
    writes of the event; every further call made for the same event only
    calls [preventDefault] and writes zero amounts. *)
Theorem extra_listeners_move_nothing (cfg : Config) (event : PointerEvent) (w : World) :
  element w <> None -> moveListeners w <> [] ->
  exists extra,
    log (dispatch cfg (EvMove event) w) = log (onMove cfg event w) ++ extra /\
    Forall idle extra.
Proof.
  intros Hel Hl. destruct (element w) as [el|] eqn:E; [clear Hel | congruence].
  cbn [dispatch]. destruct (moveListeners w) as [|f fs]; [congruence|]. cbn [fold_left].
  destruct (onMove_spec cfg event w el E) as (E' & Hx' & Hy' & _).
  apply (later_calls_idle cfg event el fs _ E' Hx' Hy').
Qed.

Lemma extra_listeners_move_nothing_witness :
  let w := run Sample.defaults
             [EvStart (Sample.at_ 0 0 0); EvEnd (Sample.at_ 50 0 0);
              EvStart (Sample.at_ 100 0 0)] initial in
  moveListeners w = [2%nat; 4%nat] /\
  exists extra,
    log (dispatch Sample.defaults (EvMove (Sample.at_ 110 10 0)) w)
      = log (onMove Sample.defaults (Sample.at_ 110 10 0) w) ++ extra /\
    Forall idle extra.
Proof.
  split; [vm_compute; reflexivity|].
  apply (extra_listeners_move_nothing Sample.defaults).
  - vm_compute. discriminate.
  - vm_compute. discriminate.
Defined.

(** X10.  One call of [onMove] with an element set writes the pointer delta
    multiplied by the sensibility: on the axes of the configured mode the
    written amounts are [sensibility * (lastX - x)] and
    [sensibility * (lastY - y)], after one call of [preventDefault]. *)
Theorem onMove_writes_scaled_delta (cfg : Config) (event : PointerEvent) (w : World)
    (el : Element) :
  element w = Some el ->
  exists vx vy : Q,
    (vx == sensibility cfg * (lastX w - clientX event))%Q /\
    (vy == sensibility cfg * (lastY w - clientY event))%Q /\
    log (onMove cfg event w) =
    log w ++ PreventDefault ::
      match type cfg with
      | HORIZONTAL => [ScrollLeftAdd el (Finite vx)]
      | VERTICAL => [ScrollTopAdd el (Finite vy)]
      | BOTH => [ScrollLeftAdd el (Finite vx); ScrollTopAdd el (Finite vy)]
      end.
Proof.
  intros E.
  exists (getDelta cfg (lastX w - clientX event)), (getDelta cfg (lastY w - clientY event)).
  split; [apply getDelta_scale|]. split; [apply getDelta_scale|].
  rewrite (onMove_log_exact cfg event w el E). unfold scrollWrites.
  destruct (type cfg); reflexivity.
Qed.

Lemma onMove_writes_scaled_delta_witness :
  let cfg := constructor None None None None (Some (2 # 1)) None in
  let w := dispatch cfg (EvStart (Sample.at_ 0 100 40)) initial in
  element w = Some Sample.pane /\
  exists vx vy : Q,
    (vx == 2 * (100 - 90))%Q /\ (vy == 2 * (40 - 45))%Q /\
    log (onMove cfg (Sample.at_ 10 90 45) w) =
    log w ++ [PreventDefault; ScrollLeftAdd Sample.pane (Finite vx);
              ScrollTopAdd Sample.pane (Finite vy)].
Proof.
  assert (E : element (dispatch (constructor None None None None (Some (2 # 1)) None)
                         (EvStart (Sample.at_ 0 100 40)) initial) = Some Sample.pane)
    by reflexivity.
  split; [exact E|].
  exact (onMove_writes_scaled_delta (constructor None None None None (Some (2 # 1)) None)
           (Sample.at_ 10 90 45) _ Sample.pane E).
Defined.

(** ** Timers *)

Section TimerFacts.

Variable cfg : Config.

Lemma onMove_lastEnd event w : lastEnd (onMove cfg event w) = lastEnd w.
Proof.
  unfold onMove, scrollBy.
  destruct w as [el ldx ldy le ls lx ly sc si st td tm nt ml nf lg]; cbn.
  destruct el; [|reflexivity]. destruct (type cfg); cbn;
    repeat match goal with
      | |- context [if ?b then _ else _] => destruct b; cbn
      end; reflexivity.
Qed.

Lemma onEnd_discrete event w :
  continuous cfg = false ->
  onEnd cfg event w =
  let w := removeMoveEvent w in
  if Qltb (totalDelta w) (minimum cfg) then
    set_scrolling false (set_element None w)
  else
    let w := emit [PreventDefault] w in
    let w := clearHandle (stopTimeout w) w in
    let w := set_scrolling false w in
    let (h, w) := setTimer StopTimeout w in
    set_stopTimeout (Some h) w.
Proof. intros Hc. unfold onEnd. rewrite Hc. reflexivity. Qed.

Lemma neverFlung_dispatch ev w :
  continuous cfg = false -> neverFlung w -> neverFlung (dispatch cfg ev w).
Proof.
  intros Hc (H1 & H2 & H3 & H4 & H5 & H6). destruct ev as [event|event|event|h].
  - cbn [dispatch].
    unfold onStart, addMoveEvent, bind, addEventListener, setCoordinates, neverFlung.
    destruct w as [el ldx ldy le ls lx ly sc si st td tm nt ml nf lg]; cbn in *.
    revert Hc. destruct (continuous cfg); intros Hc; [discriminate|].
    destruct (findScrollable cfg (target event) 0); cbn;
      [destruct (existsb _ ml); cbn|]; repeat split; assumption.
  - cbn [dispatch]. generalize (moveListeners w) as fs. intros fs.
    assert (Hone : forall w0, neverFlung w0 -> neverFlung (onMove cfg event w0)).
    { intros w0 (G1 & G2 & G3 & G4 & G5 & G6).
      destruct (onMove_sameHost cfg event w0) as (_ & Ht & _ & Hi & _).
      destruct (element w0) as [el|] eqn:E.
      - destruct (onMove_spec cfg event w0 el E) as (_ & _ & _ & _ & _ & A).
        rewrite Hc, andb_false_r in A. destruct A as (A1 & A2 & A3).
        pose proof (onMove_lastEnd event w0) as A4.
        unfold neverFlung. rewrite Ht, Hi, A1, A2, A3, A4. repeat split; assumption.
      - unfold onMove. rewrite E. repeat split; assumption. }
    assert (Hw : neverFlung w) by (repeat split; assumption).
    clear H1 H2 H3 H4 H5 H6. revert w Hw.
    induction fs as [|f fs IH]; intros w Hw; cbn; [exact Hw|].
    apply IH, Hone, Hw.
  - cbn [dispatch]. rewrite (onEnd_discrete event w Hc). clear Hc.
    unfold removeMoveEvent, bind, removeEventListener, setTimer, clearHandle,
      clearTimer, neverFlung.
    destruct w as [el ldx ldy le ls lx ly sc si st td tm nt ml nf lg]; cbn in *.
    destruct (Qltb td (minimum cfg)); cbn; [repeat split; assumption|].
    destruct st as [hs|]; cbn; repeat split; try assumption;
      intros h c Hl; map_cases; try discriminate; eapply H2; eassumption.
  - cbn [dispatch].
    unfold fireTimer, stopTimeoutCallback, clearHandle, clearTimer, neverFlung.
    destruct w as [el ldx ldy le ls lx ly sc si st td tm nt ml nf lg]; cbn in *.
    destruct (tm !! h) as [[|c]|] eqn:E; [| exfalso; apply (H2 _ _ E) |
                                           repeat split; assumption].
    destruct st as [hs|]; cbn; repeat split; try assumption;
      intros h' c Hl; map_cases; eapply H2; eassumption.
Qed.

Lemma neverFlung_run evs w :
  continuous cfg = false -> neverFlung w -> neverFlung (run cfg evs w).
Proof.
  intros Hc. revert w. induction evs as [|ev evs IH]; intros w Hw; cbn; [exact Hw|].
  apply IH, neverFlung_dispatch; assumption.
Qed.

End TimerFacts.

(** X11.  A controller built with [continuous = false] never starts a
    fling: in every reachable state no interval is live, the handle
    [scrollInterval] is null, and the velocity accumulator and the two time
    stamps of the velocity window still hold their initial zero. *)
Theorem discrete_mode_never_flings (cfg : Config) (evs : list Event) :
  continuous cfg = false ->
  let w := run cfg evs initial in
  scrollInterval w = None /\ coasting w = false /\
  (forall h c, timers w !! h <> Some (ScrollInterval c)) /\
  lastDeltaX w = 0%Q /\ lastDeltaY w = 0%Q /\ lastStart w = 0%Q /\ lastEnd w = 0%Q.
Proof.
  intros Hc w.
  assert (H0 : neverFlung initial).
  { repeat split. intros h c. cbn. rewrite lookup_empty. discriminate. }
  destruct (neverFlung_run cfg evs initial Hc H0) as (H1 & H2 & H3 & H4 & H5 & H6).
  fold w in H1, H2, H3, H4, H5, H6.
  repeat split; try assumption. unfold coasting. rewrite H1. reflexivity.
Qed.

Lemma discrete_mode_never_flings_witness :
  let w := run Sample.discrete
             [EvStart (Sample.at_ 0 100 0); EvMove (Sample.at_ 100 0 0);
              EvEnd (Sample.at_ 250 0 0)] initial in
  continuous Sample.discrete = false /\
  stopTimeout w = Some 1%nat /\ scrollInterval w = None /\ coasting w = false.
Proof.
  assert (Hc : continuous Sample.discrete = false) by reflexivity.
  split; [exact Hc|]. split; [vm_compute; reflexivity|].
  destruct (discrete_mode_never_flings Sample.discrete
              [EvStart (Sample.at_ 0 100 0); EvMove (Sample.at_ 100 0 0);
               EvEnd (Sample.at_ 250 0 0)] Hc) as (H1 & H2 & _).
  split; assumption.
Defined.

(** X12.  In every reachable state at most one settle timeout is pending,
    and it is the one whose handle the class holds in [stopTimeout]; the
    end handler replaces the pending timeout, it never stacks a second. *)
Theorem single_settle_timeout (cfg : Config) (evs : list Event) (h1 h2 : nat) :
  let w := run cfg evs initial in
  timers w !! h1 = Some StopTimeout -> timers w !! h2 = Some StopTimeout ->
  h1 = h2 /\ stopTimeout w = Some h1.
Proof.
  intros w E1 E2. assert (Hwf : wf w) by apply run_wf, wf_initial.
  pose proof (wf_timeout w Hwf _ E1) as I1.
  pose proof (wf_timeout w Hwf _ E2) as I2.
  split; congruence.
Qed.

Lemma single_settle_timeout_witness :
  let w := run Sample.discrete
             [EvStart (Sample.at_ 0 100 0); EvMove (Sample.at_ 100 0 0);
              EvEnd (Sample.at_ 250 0 0); EvEnd (Sample.at_ 251 0 0)] initial in
  timers w !! 2%nat = Some StopTimeout /\ timers w !! 1%nat = None /\
  stopTimeout w = Some 2%nat.
Proof.
  assert (E : timers (run Sample.discrete
                        [EvStart (Sample.at_ 0 100 0); EvMove (Sample.at_ 100 0 0);
                         EvEnd (Sample.at_ 250 0 0); EvEnd (Sample.at_ 251 0 0)] initial)
              !! 2%nat = Some StopTimeout) by (vm_compute; reflexivity).
  split; [exact E|]. split; [vm_compute; reflexivity|].
  exact (proj2 (single_settle_timeout Sample.discrete _ 2%nat 2%nat E E)).
Defined.

Lemma fireTimer_settle_once (cfg : Config) (h : nat) (w : World) :
  timers w !! h = Some StopTimeout ->
  element (fireTimer cfg h w) = None /\ scrolling (fireTimer cfg h w) = false /\
  timers (fireTimer cfg h w) !! h = None.
Proof.
  intros E. unfold fireTimer. rewrite E.
  unfold stopTimeoutCallback, clearHandle, clearTimer.
  destruct w as [el ldx ldy le ls lx ly sc si st td tm nt ml nf lg]; cbn.
  destruct st as [hs|]; cbn; repeat split.
  - destruct (decide (hs = h)) as [->|Hne];
      [apply lookup_delete_eq | rewrite lookup_delete_ne by exact Hne; apply lookup_delete_eq].
  - apply lookup_delete_eq.
Qed.

(** X13.  A settle timeout does its work once: when it fires, the element
    and the scrolling flag are cleared and the timeout leaves the timer
    table, so that the host firing the same handle again changes nothing. *)
Theorem settle_timeout_fires_once (cfg : Config) (h : nat) (w : World) :
  timers w !! h = Some StopTimeout ->
  let w1 := dispatch cfg (EvTimer h) w in
  element w1 = None /\ scrolling w1 = false /\ isScrolling w1 = false /\
  timers w1 !! h = None /\ dispatch cfg (EvTimer h) w1 = w1.
Proof.
  intros E. cbn [dispatch].
  destruct (fireTimer_settle_once cfg h w E) as (H1 & H2 & H3). cbv zeta.
  split; [exact H1|]. split; [exact H2|].
  split; [unfold isScrolling; rewrite H2; reflexivity|].
  split; [exact H3|].
  unfold fireTimer at 1. rewrite H3. reflexivity.
Qed.

Lemma settle_timeout_fires_once_witness :
  let w := run Sample.defaults
             [EvStart (Sample.at_ 0 100 0); EvMove (Sample.at_ 100 0 0);
              EvEnd (Sample.at_ 250 0 0)] initial in
  let w1 := dispatch Sample.defaults (EvTimer 2) w in
  timers w !! 2%nat = Some StopTimeout /\ element w <> None /\
  element w1 = None /\ dispatch Sample.defaults (EvTimer 2) w1 = w1.
Proof.
  assert (E : timers (run Sample.defaults
                        [EvStart (Sample.at_ 0 100 0); EvMove (Sample.at_ 100 0 0);
                         EvEnd (Sample.at_ 250 0 0)] initial) !! 2%nat = Some StopTimeout)
    by (vm_compute; reflexivity).
  split; [exact E|]. split; [vm_compute; discriminate|].
  destruct (settle_timeout_fires_once Sample.defaults 2 _ E) as (H1 & _ & _ & _ & H5).
  split; assumption.
Defined.

(** ** The life of a fling *)

Section FlingLife.

Variable cfg : Config.

Lemma fireTimer_gone h w : timers w !! h = None -> fireTimer cfg h w = w.
Proof. intros E. unfold fireTimer. rewrite E. reflexivity. Qed.

Lemma ticks_gone h n w :
  timers w !! h = None -> run cfg (repeat (EvTimer h) n) w = w.
Proof.
  intros E. induction n as [|n IH]; cbn; [reflexivity|].
  rewrite (fireTimer_gone h w E). exact IH.
Qed.

(** One run of the callback, seen from the counter. *)
Lemma fireTimer_count h c w el :
  wf w -> timers w !! h = Some (ScrollInterval c) -> fl_element c = Some el ->
  let w' := fireTimer cfg h w in
  if geb (Finite (inject_Z (fl_count c + 1))) (fl_time c)
  then timers w' !! h = None
  else exists c', timers w' !! h = Some (ScrollInterval c') /\
                  fl_element c' = Some el /\ fl_time c' = fl_time c /\
                  fl_count c' = (fl_count c + 1)%Z.
Proof.
  intros Hwf E Ee. pose proof (fireTimer_interval cfg h c w Hwf E) as H.
  rewrite Ee in H. cbv zeta in *. destruct H as (_ & Ht). rewrite Ht.
  destruct (geb _ _).
  - apply lookup_delete_eq.
  - rewrite lookup_insert_eq. eexists. split; [reflexivity|]. repeat split.
Qed.

Lemma fireTimer_no_element h c w :
  wf w -> timers w !! h = Some (ScrollInterval c) -> fl_element c = None ->
  timers (fireTimer cfg h w) !! h = None /\ log (fireTimer cfg h w) = log w.
Proof.
  intros Hwf E Ee. pose proof (fireTimer_interval cfg h c w Hwf E) as H.
  rewrite Ee in H. cbv zeta in *. destruct H as (Hl & Ht).
  split; [rewrite Ht; apply lookup_delete_eq | exact Hl].
Qed.

(** While the counter stays below the budget the interval stays live. *)
Lemma ticks_live h el (n : nat) :
  forall w c,
  wf w -> timers w !! h = Some (ScrollInterval c) -> fl_element c = Some el ->
  (forall k : nat, (1 <= k <= n)%nat ->
     geb (Finite (inject_Z (fl_count c + Z.of_nat k))) (fl_time c) = false) ->
  exists c', timers (run cfg (repeat (EvTimer h) n) w) !! h = Some (ScrollInterval c') /\
             fl_element c' = Some el /\ fl_time c' = fl_time c /\
             fl_count c' = (fl_count c + Z.of_nat n)%Z.
Proof.
  induction n as [|n IH]; intros w c Hwf E Ee Hk.
  - exists c. cbn. rewrite Z.add_0_r. repeat split; assumption.
  - cbn [repeat run fold_left dispatch].
    pose proof (fireTimer_count h c w el Hwf E Ee) as H. cbv zeta in H.
    specialize (Hk 1%nat ltac:(lia)) as H1. change (Z.of_nat 1) with 1%Z in H1.
    rewrite H1 in H. destruct H as (c1 & E1 & Ee1 & Ht1 & Hc1).
    destruct (IH (fireTimer cfg h w) c1 (fireTimer_wf cfg h w Hwf) E1 Ee1)
      as (c' & E' & Ee' & Ht' & Hc').
    + intros k Hk'. rewrite Ht1, Hc1.
      replace (fl_count c + 1 + Z.of_nat k)%Z with (fl_count c + Z.of_nat (S k))%Z by lia.
      apply Hk. lia.
    + exists c'. split; [exact E'|]. split; [exact Ee'|].
      split; [congruence|]. rewrite Hc', Hc1. lia.
Qed.

(** Once the counter has reached a finite budget the interval is gone. *)
Lemma ticks_stop h (t : Q) (n : nat) :
  forall w c,
  wf w -> timers w !! h = Some (ScrollInterval c) -> fl_time c = Finite t ->
  (1 <= n)%nat -> (t <= inject_Z (fl_count c + Z.of_nat n))%Q ->
  timers (run cfg (repeat (EvTimer h) n) w) !! h = None.
Proof.
  induction n as [|n IH]; intros w c Hwf E Ht Hn Hle; [lia|].
  cbn [repeat run fold_left dispatch]. fold (run cfg (repeat (EvTimer h) n) (fireTimer cfg h w)).
  destruct (fl_element c) as [el|] eqn:Ee.
  - pose proof (fireTimer_count h c w el Hwf E Ee) as H. cbv zeta in H.
    rewrite Ht in H.
    destruct (geb (Finite (inject_Z (fl_count c + 1))) (Finite t)) eqn:G.
    + rewrite (ticks_gone h n _ H). exact H.
    + destruct H as (c1 & E1 & _ & Ht1 & Hc1).
      assert (G' : (inject_Z (fl_count c + 1) < t)%Q).
      { unfold geb, Qgeb in G. destruct (Qle_bool t _) eqn:Q; [discriminate|].
        apply Qnot_le_lt. intros Hq. apply Qle_bool_iff in Hq. congruence. }
      destruct n as [|n].
      * exfalso. change (Z.of_nat 1) with 1%Z in Hle. lra.
      * apply (IH _ c1 (fireTimer_wf cfg h w Hwf) E1); [congruence | lia |].
        rewrite Hc1.
        replace (fl_count c + 1 + Z.of_nat (S n))%Z
          with (fl_count c + Z.of_nat (S (S n)))%Z by lia.
        exact Hle.
  - destruct (fireTimer_no_element h c w Hwf E Ee) as (H & _).
    rewrite (ticks_gone h n _ H). exact H.
Qed.

End FlingLife.

(** X14.  A fling with a finite step budget [t] stops by itself.  With an
    element, the interval is still live after [k] runs of its callback as
    long as the counter [count + k] is below [t], and it is gone after [n]
    runs ([n] at least one) as soon as [count + n] has reached [t]. *)
Theorem fling_stops_at_budget (cfg : Config) (evs : list Event) (h : nat)
    (c : FlingClosure) (t : Q) :
  let w := run cfg evs initial in
  timers w !! h = Some (ScrollInterval c) -> fl_time c = Finite t ->
  (forall k : nat,
     fl_element c <> None -> (inject_Z (fl_count c + Z.of_nat k) < t)%Q ->
     exists c', timers (run cfg (repeat (EvTimer h) k) w) !! h = Some (ScrollInterval c') /\
                fl_count c' = (fl_count c + Z.of_nat k)%Z) /\
  (forall n : nat,
     (1 <= n)%nat -> (t <= inject_Z (fl_count c + Z.of_nat n))%Q ->
     timers (run cfg (repeat (EvTimer h) n) w) !! h = None).
Proof.
  intros w E Ht. assert (Hwf : wf w) by apply run_wf, wf_initial. split.
  - intros k Hel Hlt. destruct (fl_element c) as [el|] eqn:Ee; [|congruence].
    destruct (ticks_live cfg h el k w c Hwf E Ee) as (c' & E' & _ & _ & Hc').
    + intros j Hj. rewrite Ht. unfold geb, Qgeb.
      destruct (Qle_bool t _) eqn:Q; [|reflexivity].
      apply Qle_bool_iff in Q. exfalso.
      assert (Hm : (inject_Z (fl_count c + Z.of_nat j)
                    <= inject_Z (fl_count c + Z.of_nat k))%Q).
      { rewrite <- Zle_Qle. lia. }
      lra.
    + exists c'. split; assumption.
  - intros n Hn Hle. exact (ticks_stop cfg h t n w c Hwf E Ht Hn Hle).
Qed.

Lemma fling_stops_at_budget_witness :
  let evs := [EvStart (Sample.at_ 0 100 0); EvMove (Sample.at_ 100 0 0);
              EvEnd (Sample.at_ 2500 0 0)] in
  let w := run Sample.defaults evs initial in
  exists c,
    timers w !! 1%nat = Some (ScrollInterval c) /\
    fl_time c = Finite (20 / ((2500 - 0) * (8 # 1000))) /\
    timers (run Sample.defaults (repeat (EvTimer 1) 1) w) !! 1%nat = None.
Proof.
  eexists. split; [vm_compute; reflexivity|]. split; [reflexivity|].
  refine (proj2 (fling_stops_at_budget Sample.defaults
                   [EvStart (Sample.at_ 0 100 0); EvMove (Sample.at_ 100 0 0);
                    EvEnd (Sample.at_ 2500 0 0)] 1%nat _
                   (20 / ((2500 - 0) * (8 # 1000))) _ _) 1%nat _ _).
  - vm_compute. reflexivity.
  - reflexivity.
  - lia.
  - vm_compute. discriminate.
Defined.

Section FlingNumbers.

Variable cfg : Config.

Lemma decay_step (d t : Q) :
  (1 <= t)%Q -> (Qabs (d - d / t) <= Qabs d)%Q /\ (0 <= d * (d - d / t))%Q.
Proof.
  intros Ht.
  assert (Hpos : (0 < t)%Q) by lra.
  assert (Hu0 : (0 < / t)%Q) by (apply Qinv_lt_0_compat; exact Hpos).
  assert (Hu1 : (/ t <= 1)%Q) by (apply Qle_shift_inv_r; [exact Hpos | lra]).
  assert (E : (d - d / t == d * (1 - / t))%Q) by (unfold Qdiv; ring).
  rewrite E. split.
  - rewrite Qabs_Qmult. rewrite (Qabs_pos (1 - / t)) by lra.
    pose proof (Qabs_nonneg d). nra.
  - nra.
Qed.

Lemma div_finite (a b : Q) : ~ (b == 0)%Q -> div (Finite a) (Finite b) = Finite (a / b).
Proof. intros H. apply Qeq_bool_false in H. unfold div. rewrite H. reflexivity. Qed.

Lemma div_by_zero_budget (b : Q) :
  (b == 0)%Q -> div (Finite MOVEMENT_STEPS) (Finite b) = PosInfinity.
Proof. intros H. apply Qeq_bool_true in H. unfold div. rewrite H. reflexivity. Qed.

(** The remaining delta of one axis after a run of the callback. *)
Lemma remaining_decays (go : bool) (d t : Q) :
  (1 <= t)%Q ->
  exists d', (if go then sub (Finite d) (div (Finite d) (Finite t)) else Finite d)
             = Finite d' /\
             (Qabs d' <= Qabs d)%Q /\ (0 <= d * d')%Q.
Proof.
  intros Ht. destruct go.
  - rewrite div_finite by lra. cbn [sub]. unfold sub.
    exists (d - d / t)%Q. split; [reflexivity|]. apply decay_step, Ht.
  - exists d. split; [reflexivity|]. split; [lra | nra].
Qed.

End FlingNumbers.

(** X15.  A release whose time stamp equals the start of the velocity
    window divides the step budget by zero: the budget is infinite and the
    counter never reaches it.  With an element set, the interval of that
    fling is still live after any number of runs of its callback. *)
Theorem zero_elapsed_fling_never_stops (cfg : Config) (evs : list Event)
    (event : PointerEvent) :
  let w := run cfg evs initial in
  continuous cfg = true -> (minimum cfg <= totalDelta w)%Q -> element w <> None ->
  (timeStamp event == lastStart w)%Q ->
  forall n : nat,
  exists c,
    timers (run cfg (repeat (EvTimer (nextTimer w)) n) (dispatch cfg (EvEnd event) w))
      !! nextTimer w = Some (ScrollInterval c) /\
    fl_time c = PosInfinity /\ fl_count c = Z.of_nat n.
Proof.
  intros w Hc Hle Hel Hz n.
  assert (Hwf : wf w) by apply run_wf, wf_initial.
  destruct (onEnd_fling cfg event w Hwf Hc Hle) as (_ & Ht & _).
  destruct (element w) as [el|] eqn:E; [clear Hel | congruence].
  rewrite div_by_zero_budget in Ht by (rewrite Hz; ring).
  match type of Ht with
  | _ = Some (ScrollInterval ?c0) =>
      destruct (ticks_live cfg (nextTimer w) el n (onEnd cfg event w) c0
                  (onEnd_wf cfg event w Hwf) Ht eq_refl) as (c' & E' & _ & Ht' & Hc')
  end.
  - intros k _. reflexivity.
  - exists c'. split; [exact E'|]. split; [exact Ht'|]. rewrite Hc'. cbn. lia.
Qed.

Lemma zero_elapsed_fling_never_stops_witness :
  let evs := [EvStart (Sample.at_ 0 100 0); EvMove (Sample.at_ 300 0 0)] in
  let w := run Sample.defaults evs initial in
  (timeStamp (Sample.at_ 300 0 0) == lastStart w)%Q /\
  exists c,
    timers (run Sample.defaults (repeat (EvTimer (nextTimer w)) 3)
              (dispatch Sample.defaults (EvEnd (Sample.at_ 300 0 0)) w))
      !! nextTimer w = Some (ScrollInterval c) /\
    fl_time c = PosInfinity /\ fl_count c = Z.of_nat 3.
Proof.
  assert (Hz : (timeStamp (Sample.at_ 300 0 0)
                == lastStart (run Sample.defaults
                     [EvStart (Sample.at_ 0 100 0); EvMove (Sample.at_ 300 0 0)]
                     initial))%Q) by (vm_compute; reflexivity).
  split; [exact Hz|].
  apply (zero_elapsed_fling_never_stops Sample.defaults
           [EvStart (Sample.at_ 0 100 0); EvMove (Sample.at_ 300 0 0)]
           (Sample.at_ 300 0 0)).
  - reflexivity.
  - vm_compute. discriminate.
  - vm_compute. discriminate.
  - exact Hz.
Defined.

(** X17.  With a finite budget of at least one step, a run of the fling
    callback never makes the remaining delta of an axis larger and never
    turns its sign: the fling slows down, it does not reverse. *)
Theorem fling_never_grows (cfg : Config) (evs : list Event) (h : nat)
    (c c' : FlingClosure) (t : Q) :
  let w := run cfg evs initial in
  timers w !! h = Some (ScrollInterval c) ->
  fl_time c = Finite t -> (1 <= t)%Q ->
  timers (dispatch cfg (EvTimer h) w) !! h = Some (ScrollInterval c') ->
  (forall d, fl_delta_x c = Finite d ->
     exists d', fl_delta_x c' = Finite d' /\ (Qabs d' <= Qabs d)%Q /\ (0 <= d * d')%Q) /\
  (forall d, fl_delta_y c = Finite d ->
     exists d', fl_delta_y c' = Finite d' /\ (Qabs d' <= Qabs d)%Q /\ (0 <= d * d')%Q).
Proof.
  intros w E Ht Hge E'. assert (Hwf : wf w) by apply run_wf, wf_initial.
  pose proof (fireTimer_interval cfg h c w Hwf E) as H. cbn [dispatch] in E'.
  destruct (fl_element c) as [el|]; cbv zeta in H; destruct H as (_ & Htm);
    rewrite Htm in E'; [|rewrite lookup_delete_eq in E'; discriminate].
  destruct (geb _ _); [rewrite lookup_delete_eq in E'; discriminate|].
  rewrite lookup_insert_eq in E'. injection E' as <-. cbn [fl_delta_x fl_delta_y].
  rewrite Ht. split; intros d ->; apply remaining_decays; exact Hge.
Qed.

Lemma fling_never_grows_witness :
  let evs := [EvStart (Sample.at_ 0 100 0); EvMove (Sample.at_ 100 0 0);
              EvEnd (Sample.at_ 250 0 0)] in
  let w := run Sample.defaults evs initial in
  exists c c' d',
    timers w !! 1%nat = Some (ScrollInterval c) /\
    timers (dispatch Sample.defaults (EvTimer 1) w) !! 1%nat = Some (ScrollInterval c') /\
    fl_delta_x c' = Finite d' /\
    (Qabs d' <= Qabs (100 / ((250 - 0) * (8 # 1000))))%Q.
Proof.
  eexists. eexists.
  assert (E : timers (run Sample.defaults
                        [EvStart (Sample.at_ 0 100 0); EvMove (Sample.at_ 100 0 0);
                         EvEnd (Sample.at_ 250 0 0)] initial) !! 1%nat
              = Some (ScrollInterval
                        (mkFlingClosure (Some Sample.pane)
                           (Finite (100 / ((250 - 0) * (8 # 1000)))) (Finite 0)
                           (Finite (20 / ((250 - 0) * (8 # 1000)))) 0)))
    by (vm_compute; reflexivity).
  assert (E' : timers (dispatch Sample.defaults (EvTimer 1)
                         (run Sample.defaults
                            [EvStart (Sample.at_ 0 100 0); EvMove (Sample.at_ 100 0 0);
                             EvEnd (Sample.at_ 250 0 0)] initial)) !! 1%nat
               = Some (ScrollInterval
                         (mkFlingClosure (Some Sample.pane)
                            (sub (Finite (100 / ((250 - 0) * (8 # 1000))))
                               (div (Finite (100 / ((250 - 0) * (8 # 1000))))
                                  (Finite (20 / ((250 - 0) * (8 # 1000))))))
                            (Finite 0)
                            (Finite (20 / ((250 - 0) * (8 # 1000)))) 1)))
    by (vm_compute; reflexivity).
  destruct (proj1 (fling_never_grows Sample.defaults _ 1%nat _ _
                     (20 / ((250 - 0) * (8 # 1000))) E eq_refl
                     ltac:(vm_compute; discriminate) E')
              (100 / ((250 - 0) * (8 # 1000)))%Q eq_refl) as (d' & Hd & Habs & _).
  exists d'. split; [exact E|]. split; [exact E'|]. split; assumption.
Defined.

(** ** Which elements are written *)

Section WrittenElements.

Variable cfg : Config.

Lemma findScrollable_scrollable (start : option Element) (i : Q) (a : Element) :
  findScrollable cfg start i = Some a -> isScrollable cfg a = true.
Proof.
  destruct start as [e|]; [|discriminate]. intros H.
  destruct (findScrollableFrom_sound cfg e i a H) as (_ & _ & Ha & _). exact Ha.
Qed.

Lemma onStart_onlyScrollable event w :
  onlyScrollable cfg w -> onlyScrollable cfg (onStart cfg event w).
Proof.
  intros (H1 & H2 & H3).
  pose proof (findScrollable_scrollable (target event) 0) as Hf.
  unfold onStart, addMoveEvent, bind, addEventListener, setCoordinates, onlyScrollable.
  destruct w as [el ldx ldy le ls lx ly sc si st td tm nt ml nf lg]; cbn in *.
  destruct (findScrollable cfg (target event) 0) as [a|]; cbn.
  - destruct (continuous cfg); cbn; destruct (existsb _ ml); cbn;
      (split; [intros el0 [= <-]; apply Hf; reflexivity|]); split; assumption.
  - split; [discriminate|]. split; assumption.
Qed.

Lemma onMove_onlyScrollable event w :
  onlyScrollable cfg w -> onlyScrollable cfg (onMove cfg event w).
Proof.
  intros (H1 & H2 & H3).
  destruct (onMove_sameHost cfg event w) as (He & Ht & _).
  unfold onlyScrollable. rewrite He, Ht. split; [exact H1|]. split; [exact H2|].
  destruct (element w) as [el|] eqn:E.
  - rewrite (onMove_log_exact cfg event w el E). intros f el0 Hin Hw.
    apply in_app_or in Hin. destruct Hin as [Hin | Hin]; [exact (H3 f el0 Hin Hw)|].
    assert (Hel : el0 = el).
    { destruct Hin as [<- | Hin]; [discriminate|]. unfold scrollWrites in Hin.
      destruct (type cfg); cbn in Hin;
        repeat (destruct Hin as [<- | Hin]; [cbn in Hw; congruence|]); contradiction. }
    subst el0. apply H1. reflexivity.
  - unfold onMove. rewrite E. exact H3.
Qed.

Lemma moves_onlyScrollable event (fs : list nat) w :
  onlyScrollable cfg w ->
  onlyScrollable cfg (fold_left (fun w (_ : nat) => onMove cfg event w) fs w).
Proof.
  revert w. induction fs as [|f fs IH]; intros w Hw; cbn; [exact Hw|].
  apply IH, onMove_onlyScrollable, Hw.
Qed.

Lemma onEnd_onlyScrollable event w :
  onlyScrollable cfg w -> onlyScrollable cfg (onEnd cfg event w).
Proof.
  intros (H1 & H2 & H3).
  unfold onEnd, removeMoveEvent, bind, removeEventListener, smoothScrollBy, setTimer,
    clearHandle, clearTimer, onlyScrollable.
  destruct w as [el ldx ldy le ls lx ly sc si st td tm nt ml nf lg]; cbn in *.
  destruct (Qltb td (minimum cfg)); cbn.
  - split; [discriminate|]. split; assumption.
  - assert (Hlog : forall f el0, In f (lg ++ [PreventDefault]) -> written f = Some el0 ->
                                 isScrollable cfg el0 = true).
    { intros f el0 Hin Hw. apply in_app_or in Hin.
      destruct Hin as [Hin | [<- | []]]; [exact (H3 f el0 Hin Hw) | discriminate]. }
    destruct (continuous cfg); cbn; destruct si; destruct st; cbn;
      (split; [exact H1|]); (split; [|exact Hlog]);
      intros h c el0 Hl Hc; map_cases; simplify_eq; cbn in *;
      try (apply H1; assumption); eapply H2; eassumption.
Qed.

Lemma fireTimer_onlyScrollable h w :
  onlyScrollable cfg w -> onlyScrollable cfg (fireTimer cfg h w).
Proof.
  intros (H1 & H2 & H3).
  unfold fireTimer, stopTimeoutCallback, scrollIntervalCallback, clearHandle, clearTimer,
    onlyScrollable.
  destruct w as [el ldx ldy le ls lx ly sc si st td tm nt ml nf lg]; cbn in *.
  destruct (tm !! h) as [[|c]|] eqn:E; cbn; [| |split; [|split]; assumption].
  - destruct st; cbn; (split; [discriminate|]); (split; [|exact H3]);
      intros h' c el0 Hl Hc; map_cases; eapply H2; eassumption.
  - destruct (fl_element c) as [el0|] eqn:Ee; cbn.
    + assert (Hel0 : isScrollable cfg el0 = true) by (eapply H2; eassumption).
      destruct (gtb (abs (fl_delta_x c)) (Finite 1)
                && negb (TouchTypes_eqb (type cfg) VERTICAL)) eqn:GX;
        destruct (gtb (abs (fl_delta_y c)) (Finite 1)
                  && negb (TouchTypes_eqb (type cfg) HORIZONTAL)) eqn:GY;
        match goal with |- context [geb ?a ?b] => destruct (geb a b) end;
        destruct si; cbn;
        (split; [exact H1|]); split;
        try (intros h' c' el1 Hl Hc; map_cases; simplify_eq; cbn in *;
             try (simplify_eq; exact Hel0); eapply H2; eassumption).
      all: intros f el1 Hin Hw.
      all: repeat (apply in_app_or in Hin; destruct Hin as [Hin | [<- | []]]);
        try (exact (H3 f el1 Hin Hw)); cbn in Hw; congruence.
    + destruct si; cbn; (split; [exact H1|]); (split; [|exact H3]);
        intros h' c' el1 Hl Hc; map_cases; eapply H2; eassumption.
Qed.

Lemma dispatch_onlyScrollable ev w :
  onlyScrollable cfg w -> onlyScrollable cfg (dispatch cfg ev w).
Proof.
  destruct ev as [event|event|event|h]; cbn [dispatch].
  - apply onStart_onlyScrollable.
  - apply moves_onlyScrollable.
  - apply onEnd_onlyScrollable.
  - apply fireTimer_onlyScrollable.
Qed.

End WrittenElements.

(** X18.  The controller only ever scrolls elements that pass its own
    test: in every run, each write to a scroll offset, by a move event or
    by a fling, targets an element that satisfies [isScrollable], and so
    do the active element and the element held by a live fling. *)
Theorem writes_only_scrollable (cfg : Config) (evs : list Event) :
  let w := run cfg evs initial in
  (forall f el, In f (log w) -> written f = Some el -> isScrollable cfg el = true) /\
  (forall el, element w = Some el -> isScrollable cfg el = true) /\
  (forall h c el, timers w !! h = Some (ScrollInterval c) ->
                  fl_element c = Some el -> isScrollable cfg el = true).
Proof.
  assert (H : onlyScrollable cfg (run cfg evs initial)).
  { assert (H0 : onlyScrollable cfg initial).
    { split; [discriminate|]. split; [|intros f0 el0 []].
      intros h c el0. cbn. rewrite lookup_empty. discriminate. }
    generalize initial H0. induction evs as [|ev evs IH]; intros w Hw; cbn; [exact Hw|].
    apply IH, dispatch_onlyScrollable, Hw. }
  destruct H as (H1 & H2 & H3). cbv zeta. repeat split; assumption.
Qed.

Lemma writes_only_scrollable_witness :
  let evs := [EvStart (Sample.at_ 0 100 0); EvMove (Sample.at_ 100 0 0)] in
  In (ScrollLeftAdd Sample.pane (Finite 100)) (log (run Sample.defaults evs initial)) /\
  isScrollable Sample.defaults Sample.pane = true.
Proof.
  assert (H : In (ScrollLeftAdd Sample.pane (Finite 100))
                (log (run Sample.defaults
                        [EvStart (Sample.at_ 0 100 0); EvMove (Sample.at_ 100 0 0)]
                        initial))).
  { vm_compute. right. left. reflexivity. }
  split; [exact H|].
  exact (proj1 (writes_only_scrollable Sample.defaults
                  [EvStart (Sample.at_ 0 100 0); EvMove (Sample.at_ 100 0 0)])
           _ Sample.pane H eq_refl).
Defined.

(** ** Presses during the settle delay *)

Section DragWrites.

Variable cfg : Config.

Lemma moves_noop event (fs : list nat) w :
  element w = None -> fold_left (fun w (_ : nat) => onMove cfg event w) fs w = w.
Proof.
  intros E. induction fs as [|f fs IH]; cbn; [reflexivity|].
  unfold onMove at 2. rewrite E. exact IH.
Qed.

Lemma onStart_timers event w :
  timers (onStart cfg event w) = timers w /\ stopTimeout (onStart cfg event w) = stopTimeout w.
Proof.
  unfold onStart, addMoveEvent, bind, addEventListener, setCoordinates.
  destruct w as [el ldx ldy le ls lx ly sc si st td tm nt ml nf lg]; cbn.
  destruct (findScrollable cfg (target event) 0); [|split; reflexivity].
  destruct (continuous cfg); cbn; destruct (existsb _ ml); split; reflexivity.
Qed.

End DragWrites.

(** X19.  A press does not touch the timers.  When a press comes while the
    settle timeout of the previous release is pending, the timeout still
    fires: it clears the element the press has just set, and from then on
    the move events of that drag do nothing. *)
Theorem press_during_settle_is_dropped (cfg : Config) (w : World)
    (press : PointerEvent) (h : nat) :
  timers w !! h = Some StopTimeout ->
  let w1 := dispatch cfg (EvStart press) w in
  let w2 := dispatch cfg (EvTimer h) w1 in
  timers w1 = timers w /\ element w2 = None /\
  forall m, dispatch cfg (EvMove m) w2 = w2.
Proof.
  intros E w1 w2.
  destruct (onStart_timers cfg press w) as (Ht & _).
  change (onStart cfg press w) with w1 in Ht.
  split; [exact Ht|].
  assert (E1 : timers w1 !! h = Some StopTimeout) by (rewrite Ht; exact E).
  destruct (fireTimer_settle_once cfg h w1 E1) as (Hel & _).
  split; [exact Hel|]. intros m. cbn [dispatch]. apply moves_noop. exact Hel.
Qed.

Lemma press_during_settle_is_dropped_witness :
  let w := run Sample.defaults
             [EvStart (Sample.at_ 0 100 0); EvMove (Sample.at_ 100 0 0);
              EvEnd (Sample.at_ 250 0 0)] initial in
  let w1 := dispatch Sample.defaults (EvStart (Sample.at_ 250 0 0)) w in
  let w2 := dispatch Sample.defaults (EvTimer 2) w1 in
  timers w !! 2%nat = Some StopTimeout /\ element w1 = Some Sample.pane /\
  element w2 = None /\
  dispatch Sample.defaults (EvMove (Sample.at_ 260 50 0)) w2 = w2.
Proof.
  assert (E : timers (run Sample.defaults
                        [EvStart (Sample.at_ 0 100 0); EvMove (Sample.at_ 100 0 0);
                         EvEnd (Sample.at_ 250 0 0)] initial) !! 2%nat = Some StopTimeout)
    by (vm_compute; reflexivity).
  split; [exact E|]. split; [vm_compute; reflexivity|].
  destruct (press_during_settle_is_dropped Sample.defaults _ (Sample.at_ 250 0 0) 2%nat E)
    as (_ & H2 & H3).
  split; [exact H2 | apply H3].
Defined.

(** ** The scrolling flag between gestures *)

Section FlagFacts.

Variable cfg : Config.

Lemma onEnd_flag_down event w : scrolling (onEnd cfg event w) = false.
Proof.
  unfold onEnd, removeMoveEvent, bind, removeEventListener, smoothScrollBy, setTimer,
    clearHandle, clearTimer.
  destruct w as [el ldx ldy le ls lx ly sc si st td tm nt ml nf lg]; cbn.
  destruct (Qltb td (minimum cfg)); cbn; [reflexivity|].
  destruct (continuous cfg); cbn; destruct si; destruct st; reflexivity.
Qed.

Lemma flag_stays_down ev w :
  notMove ev = true -> scrolling w = false -> scrolling (dispatch cfg ev w) = false.
Proof.
  destruct ev as [event|event|event|h]; [|discriminate| |]; intros _ H; cbn [dispatch].
  - unfold onStart, addMoveEvent, bind, addEventListener, setCoordinates.
    destruct w as [el ldx ldy le ls lx ly sc si st td tm nt ml nf lg]; cbn in *.
    destruct (findScrollable cfg (target event) 0); [|exact H].
    destruct (continuous cfg); cbn; destruct (existsb _ ml); exact H.
  - apply onEnd_flag_down.
  - unfold fireTimer, stopTimeoutCallback, scrollIntervalCallback, clearHandle, clearTimer.
    destruct w as [el ldx ldy le ls lx ly sc si st td tm nt ml nf lg]; cbn in *.
    destruct (tm !! h) as [[|c]|]; cbn; [destruct st; reflexivity | | exact H].
    destruct (fl_element c); cbn;
      repeat match goal with
        | |- context [if ?b then _ else _] => destruct b; cbn
        end; destruct si; exact H.
Qed.

End FlagFacts.

(** X21.  Every end event lowers the scrolling flag, whatever the distance
    and the mode, and the flag stays down until the next move event: start
    events and timer callbacks never raise it.  [isScrolling()] is false
    between gestures. *)
Theorem flag_down_between_gestures (cfg : Config) (w : World) (release : PointerEvent)
    (evs : list Event) :
  forallb notMove evs = true ->
  let w' := run cfg evs (dispatch cfg (EvEnd release) w) in
  scrolling w' = false /\ isScrolling w' = false.
Proof.
  intros Hev.
  assert (H : scrolling (run cfg evs (dispatch cfg (EvEnd release) w)) = false).
  { assert (H0 : scrolling (dispatch cfg (EvEnd release) w) = false)
      by apply onEnd_flag_down.
    revert Hev. generalize (dispatch cfg (EvEnd release) w) H0. clear H0.
    induction evs as [|ev evs IH]; intros w0 H0 Hev; cbn; [exact H0|].
    cbn in Hev. apply andb_prop in Hev. destruct Hev as (Hev1 & Hev2).
    apply IH; [apply flag_stays_down; assumption | exact Hev2]. }
  cbv zeta. split; [exact H|]. unfold isScrolling. rewrite H. reflexivity.
Qed.

Lemma flag_down_between_gestures_witness :
  let w := run Sample.defaults
             [EvStart (Sample.at_ 0 100 0); EvMove (Sample.at_ 100 0 0)] initial in
  let evs := [EvTimer 1; EvStart (Sample.at_ 300 0 0)] in
  scrolling w = true /\ forallb notMove evs = true /\
  scrolling (run Sample.defaults evs
               (dispatch Sample.defaults (EvEnd (Sample.at_ 250 0 0)) w)) = false.
Proof.
  split; [vm_compute; reflexivity|]. split; [reflexivity|].
  exact (proj1 (flag_down_between_gestures Sample.defaults _ (Sample.at_ 250 0 0)
                  [EvTimer 1; EvStart (Sample.at_ 300 0 0)] eq_refl)).
Defined.
